(** * QoS container manager and admission plugin initializer

    A shallow embedding of

    - the kubelet QoS container manager (package [cm]): [Start],
      [setCPUCgroupConfig], [setMemoryReserve], [retrySetMemoryReserve]
      and [UpdateCgroups];
    - the admission plugin initializer (package [admission]):
      [NewPluginInitializer] and [Initialize].

    Go's [int64] is a [Z] with the wrap-around written out; Go maps are
    [gmap]s, and a [range] over a map takes its iteration order as an
    argument, since Go leaves that order unspecified.  Calls that leave
    the package (the cgroup driver, the active-pods and node-allocatable
    accessors) are steps of a state monad over the outside world which
    also returns the list of the calls made, each with its answer. *)

From Stdlib Require Import ZArith Lia.
From stdpp Require Import base option list gmap strings fin_maps.

Local Open Scope Z_scope.

(** ** Signed 64-bit integers *)

Module Int64.

Definition min_int : Z := - 2 ^ 63.
Definition max_int : Z := 2 ^ 63 - 1.

Definition in_range (z : Z) : Prop := min_int <= z <= max_int.

(** Two's complement reduction of a mathematical integer. *)
Definition wrap (z : Z) : Z := (z + 2 ^ 63) mod 2 ^ 64 - 2 ^ 63.

Definition add (a b : Z) : Z := wrap (a + b).
Definition sub (a b : Z) : Z := wrap (a - b).
Definition mul (a b : Z) : Z := wrap (a * b).
(** Go's [/] on integers truncates toward zero. *)
Definition quot (a b : Z) : Z := wrap (a ÷ b).

Lemma wrap_in_range z : in_range (wrap z).
Proof.
  unfold in_range, wrap, min_int, max_int.
  pose proof (Z.mod_pos_bound (z + 2 ^ 63) (2 ^ 64)). lia.
Qed.

Lemma wrap_id z : in_range z -> wrap z = z.
Proof.
  unfold in_range, wrap, min_int, max_int. intros Hz.
  rewrite Z.mod_small; lia.
Qed.

Lemma wrap_add_l a b : wrap (wrap a + b) = wrap (a + b).
Proof.
  unfold wrap. f_equal.
  replace (((a + 2 ^ 63) mod 2 ^ 64 - 2 ^ 63) + b + 2 ^ 63)
    with ((a + 2 ^ 63) mod 2 ^ 64 + b) by lia.
  replace (a + b + 2 ^ 63) with ((a + 2 ^ 63) + b) by lia.
  rewrite Zplus_mod_idemp_l. reflexivity.
Qed.

Lemma add_0_l a : in_range a -> add 0 a = a.
Proof. intros. unfold add. rewrite Z.add_0_l. by apply wrap_id. Qed.

Lemma quot_100_id a : in_range a -> quot a 100 = a ÷ 100.
Proof.
  intros Ha. unfold quot. apply wrap_id.
  unfold in_range, min_int, max_int in *.
  destruct (Z.le_gt_cases 0 a) as [Hpos|Hneg].
  - pose proof (Z.quot_pos a 100 Hpos ltac:(lia)).
    pose proof (Z.quot_le_upper_bound a 100 a ltac:(lia) ltac:(nia)). lia.
  - pose proof (Z.quot_opp_l a 100 ltac:(lia)) as Ho.
    pose proof (Z.quot_pos (- a) 100 ltac:(lia) ltac:(lia)).
    pose proof (Z.quot_le_upper_bound (- a) 100 (- a) ltac:(lia) ltac:(nia)).
    lia.
Qed.

End Int64.

(** ** Package cm: the QoS container manager *)

Module cm.

(** Go's [error] values are observed through their message. *)
Definition error : Type := string.

(** [v1.PodQOSClass] with its three constants. *)
Inductive PodQOSClass : Type :=
  | PodQOSGuaranteed
  | PodQOSBurstable
  | PodQOSBestEffort.

#[global] Instance PodQOSClass_eq_dec : EqDecision PodQOSClass.
Proof. solve_decision. Defined.

#[global] Instance PodQOSClass_countable : Countable PodQOSClass.
Proof.
  refine (inj_countable'
    (fun q => match q with
              | PodQOSGuaranteed => 0%nat
              | PodQOSBurstable => 1%nat
              | PodQOSBestEffort => 2%nat
              end)
    (fun n => match n with
              | O => PodQOSGuaranteed
              | S O => PodQOSBurstable
              | _ => PodQOSBestEffort
              end) _).
  by intros [].
Defined.

(** [string(qosClass)]: the constants' string values. *)
Definition PodQOSClass_string (q : PodQOSClass) : string :=
  match q with
  | PodQOSGuaranteed => "Guaranteed"
  | PodQOSBurstable => "Burstable"
  | PodQOSBestEffort => "BestEffort"
  end.

(** [v1.ResourceName] is a string type. *)
Definition ResourceCPU : string := "cpu".
Definition ResourceMemory : string := "memory".

(** A [resource.Quantity], seen through the two readings the manager
    takes of it: [Value()] and [MilliValue()], both [int64]. *)
Record Quantity : Type := mkQuantity { Value : Z; MilliValue : Z }.

(** [v1.ResourceList] is [map[ResourceName]resource.Quantity]. *)
Abbreviation ResourceList := (gmap string Quantity).

(** [ResourceConfig]: the two nullable targets the manager writes; its
    other fields are never touched by this code and stay nil. *)
Record ResourceConfig : Type := mkResourceConfig {
  Memory : option Z;
  CpuShares : option Z
}.

Record CgroupConfig : Type := mkCgroupConfig {
  Name : string;
  ResourceParameters : ResourceConfig
}.

Record QOSContainersInfo : Type := mkQOSContainersInfo {
  Guaranteed : string;
  Burstable : string;
  BestEffort : string
}.

Record MemoryStats : Type := mkMemoryStats { Usage : Z }.
Record ResourceStats : Type := mkResourceStats { MemoryStats_ : MemoryStats }.

(** [map[v1.PodQOSClass]*CgroupConfig] *)
Abbreviation Configs := (gmap PodQOSClass CgroupConfig).

#[global] Instance ResourceConfig_eq_dec : EqDecision ResourceConfig.
Proof. solve_decision. Defined.
#[global] Instance CgroupConfig_eq_dec : EqDecision CgroupConfig.
Proof. solve_decision. Defined.

(** Field assignments through the pointers held by the map. *)
Definition withMemory (v : option Z) (c : CgroupConfig) : CgroupConfig :=
  {| Name := Name c;
     ResourceParameters :=
       {| Memory := v; CpuShares := CpuShares (ResourceParameters c) |} |}.

Definition withCpuShares (v : option Z) (c : CgroupConfig) : CgroupConfig :=
  {| Name := Name c;
     ResourceParameters :=
       {| Memory := Memory (ResourceParameters c); CpuShares := v |} |}.

(** The [CgroupManager] interface, as far as the manager calls it.  Each
    method is a step on the state [D] of the outside world. *)
Class CgroupManager (D : Type) : Type := {
  Exists : string -> D -> bool * D;
  Create : CgroupConfig -> D -> option error * D;
  Update : CgroupConfig -> D -> option error * D;
  GetResourceStats : string -> D -> (ResourceStats + error) * D
}.

Section Manager.

(** What the manager imports from the rest of the repository. *)
Context {Pod : Type}.
Variable GetPodQOS : Pod -> PodQOSClass.
Variable PodRequestsAndLimits : Pod -> (ResourceList * ResourceList) + error.
Variable MinShares : Z.
Variable MilliCPUToShares : Z -> Z.
Variable path_Join : string -> string -> string.

Context {D : Type} {cgroupManager : CgroupManager D}.

(** [qosContainerManagerImpl].  The two accessors are nil until [Start]
    stores them. *)
Record qosContainerManagerImpl : Type := mkManager {
  qosContainersInfo : QOSContainersInfo;
  activePods : option (D -> list Pod * D);
  getNodeAllocatable : option (D -> ResourceList * D);
  cgroupRoot : string;
  qosReserved : gmap string Z
}.

(** *** The call log and the monad *)

Inductive event : Type :=
  | EvActivePods (pods : list Pod)
  | EvNodeAllocatable (resources : ResourceList)
  | EvExists (name : string) (r : bool)
  | EvCreate (c : CgroupConfig) (r : option error)
  | EvUpdate (c : CgroupConfig) (r : option error)
  | EvGetResourceStats (name : string) (r : ResourceStats + error).

(** A computation steps the outside world and returns, with its result,
    the calls it made, oldest first; [None] is a run-time panic (nil
    dereference). *)
Definition M (A : Type) : Type := D -> option (A * D * list event).

Definition ret {A} (a : A) : M A := fun d => Some (a, d, []).

Definition bind {A B} (c : M A) (k : A -> M B) : M B :=
  fun d => match c d with
           | Some (a, d1, evs1) =>
               match k a d1 with
               | Some (b, d2, evs2) => Some (b, d2, evs1 ++ evs2)
               | None => None
               end
           | None => None
           end.

Definition panic {A} : M A := fun _ => None.

Definition call {A} (f : D -> A * D) (ev : A -> event) : M A :=
  fun d => let '(a, d') := f d in Some (a, d', [ev a]).

Notation "x <~ c ;; k" := (bind c (fun x => k))
  (at level 100, c at next level, right associativity,
   format "x  <~  c  ;;  '//' k").

Definition call_activePods (m : qosContainerManagerImpl) : M (list Pod) :=
  match activePods m with
  | Some f => call f EvActivePods
  | None => panic
  end.

Definition call_getNodeAllocatable (m : qosContainerManagerImpl)
  : M ResourceList :=
  match getNodeAllocatable m with
  | Some f => call f EvNodeAllocatable
  | None => panic
  end.

(** [configs[qos].ResourceParameters.CpuShares = &v]; a key that is not
    in the map gives a nil [*CgroupConfig], and the assignment panics. *)
Definition setCpuShares (qos : PodQOSClass) (v : Z) (configs : Configs)
  : M Configs :=
  match configs !! qos with
  | Some c => ret (<[qos := withCpuShares (Some v) c]> configs)
  | None => panic
  end.

(** [configs[qos].ResourceParameters.Memory = &v] *)
Definition setMemory (qos : PodQOSClass) (v : Z) (configs : Configs)
  : M Configs :=
  match configs !! qos with
  | Some c => ret (<[qos := withMemory (Some v) c]> configs)
  | None => panic
  end.

(** *** CPU shares *)

(** The loop of [setCPUCgroupConfig] over the pods, carrying
    [burstablePodCPURequest]; [inr err] is the early [return err]. *)
Fixpoint sumBurstableCPU (pods : list Pod) (burstablePodCPURequest : Z)
  : Z + error :=
  match pods with
  | [] => inl burstablePodCPURequest
  | pod :: pods' =>
      let qosClass := GetPodQOS pod in
      if decide (qosClass <> PodQOSBurstable) then
        sumBurstableCPU pods' burstablePodCPURequest
      else
        match PodRequestsAndLimits pod with
        | inr err => inr err
        | inl (req, _) =>
            match req !! ResourceCPU with
            | Some request =>
                sumBurstableCPU pods'
                  (Int64.add burstablePodCPURequest (MilliValue request))
            | None => sumBurstableCPU pods' burstablePodCPURequest
            end
        end
  end.

(** The result pairs the returned [error] with the map as the call
    leaves it. *)
Definition setCPUCgroupConfig (m : qosContainerManagerImpl)
  (configs : Configs) : M (option error * Configs) :=
  pods <~ call_activePods m ;;
  match sumBurstableCPU pods 0 with
  | inr err => ret (Some err, configs)
  | inl burstablePodCPURequest =>
      let bestEffortCPUShares := MinShares in
      configs <~ setCpuShares PodQOSBestEffort bestEffortCPUShares configs ;;
      let burstableCPUShares := MilliCPUToShares burstablePodCPURequest in
      let burstableCPUShares :=
        if burstableCPUShares <? MinShares then MinShares
        else burstableCPUShares in
      configs <~ setCpuShares PodQOSBurstable burstableCPUShares configs ;;
      ret (None, configs)
  end.

(** *** Memory reservation *)

(** Reading a Go map at a key it does not hold gives the zero value. *)
Definition getRequests (qosMemoryRequests : gmap PodQOSClass Z)
  (qos : PodQOSClass) : Z :=
  default 0 (qosMemoryRequests !! qos).

(** The loop of [setMemoryReserve] over the pods; [None] is the early
    [return] taken when a pod's requests cannot be determined. *)
Fixpoint sumMemoryRequests (pods : list Pod)
  (qosMemoryRequests : gmap PodQOSClass Z) : option (gmap PodQOSClass Z) :=
  match pods with
  | [] => Some qosMemoryRequests
  | pod :: pods' =>
      let podMemoryRequest := 0 in
      let qosClass := GetPodQOS pod in
      if decide (qosClass = PodQOSBestEffort) then
        sumMemoryRequests pods' qosMemoryRequests
      else
        match PodRequestsAndLimits pod with
        | inr _ => None
        | inl (req, _) =>
            let podMemoryRequest :=
              match req !! ResourceMemory with
              | Some request => Int64.add podMemoryRequest (Value request)
              | None => podMemoryRequest
              end in
            sumMemoryRequests pods'
              (<[qosClass :=
                   Int64.add (getRequests qosMemoryRequests qosClass)
                             podMemoryRequest]> qosMemoryRequests)
        end
  end.

(** [upper - (requests * percentReserve / 100)], the expression of both
    limits, in [int64] arithmetic. *)
Definition memoryLimit (upper requests percentReserve : Z) : Z :=
  Int64.sub upper (Int64.quot (Int64.mul requests percentReserve) 100).

Definition setMemoryReserve (m : qosContainerManagerImpl)
  (configs : Configs) (percentReserve : Z) : M Configs :=
  let qosMemoryRequests : gmap PodQOSClass Z :=
    {[ PodQOSGuaranteed := 0; PodQOSBurstable := 0 ]} in
  pods <~ call_activePods m ;;
  match sumMemoryRequests pods qosMemoryRequests with
  | None => ret configs
  | Some qosMemoryRequests =>
      resources <~ call_getNodeAllocatable m ;;
      match resources !! ResourceMemory with
      | None => ret configs
      | Some allocatableResource =>
          let allocatable := Value allocatableResource in
          if allocatable =? 0 then ret configs
          else
            let burstableLimit :=
              memoryLimit allocatable
                (getRequests qosMemoryRequests PodQOSGuaranteed)
                percentReserve in
            let bestEffortLimit :=
              memoryLimit burstableLimit
                (getRequests qosMemoryRequests PodQOSBurstable)
                percentReserve in
            configs <~ setMemory PodQOSBurstable burstableLimit configs ;;
            setMemory PodQOSBestEffort bestEffortLimit configs
      end
  end.

(** [for qos, config := range configs] of [retrySetMemoryReserve], the
    keys coming in the order [order] of this run of the loop. *)
Fixpoint retrySetMemoryReserve (order : list PodQOSClass)
  (configs : Configs) (percentReserve : Z) : M Configs :=
  match order with
  | [] => ret configs
  | qos :: order' =>
      match configs !! qos with
      | None => retrySetMemoryReserve order' configs percentReserve
      | Some config =>
          r <~ call (GetResourceStats (Name config))
                    (EvGetResourceStats (Name config)) ;;
          match r with
          | inr err => ret configs
          | inl stats =>
              let usage := Usage (MemoryStats_ stats) in
              let configs :=
                match Memory (ResourceParameters config) with
                | Some limit =>
                    if usage >? limit then
                      <[qos := withMemory (Some usage) config]> configs
                    else configs
                | None => configs
                end in
              retrySetMemoryReserve order' configs percentReserve
          end
      end
  end.

(** *** One reconciliation pass *)

(** [for resource, percentReserve := range m.qosReserved] with its
    [switch], before the first round of updates. *)
Fixpoint reserveResources (m : qosContainerManagerImpl)
  (entries : list (string * Z)) (configs : Configs) : M Configs :=
  match entries with
  | [] => ret configs
  | (resource, percentReserve) :: entries' =>
      if decide (resource = ResourceMemory) then
        configs <~ setMemoryReserve m configs percentReserve ;;
        reserveResources m entries' configs
      else reserveResources m entries' configs
  end.

(** The same loop before the second round of updates. *)
Fixpoint retryReserveResources (entries : list (string * Z))
  (order : list PodQOSClass) (configs : Configs) : M Configs :=
  match entries with
  | [] => ret configs
  | (resource, percentReserve) :: entries' =>
      if decide (resource = ResourceMemory) then
        configs <~ retrySetMemoryReserve order configs percentReserve ;;
        retryReserveResources entries' order configs
      else retryReserveResources entries' order configs
  end.

(** First round: every config is written, [updateSuccess] remembers
    whether all writes succeeded. *)
Fixpoint updateAll (order : list PodQOSClass) (configs : Configs)
  (updateSuccess : bool) : M bool :=
  match order with
  | [] => ret updateSuccess
  | qos :: order' =>
      match configs !! qos with
      | None => updateAll order' configs updateSuccess
      | Some config =>
          err <~ call (Update config) (EvUpdate config) ;;
          updateAll order' configs
            (match err with Some _ => false | None => updateSuccess end)
      end
  end.

(** Second round: the first failing write ends the pass with its error. *)
Fixpoint updateAgain (order : list PodQOSClass) (configs : Configs)
  : M (option error) :=
  match order with
  | [] => ret None
  | qos :: order' =>
      match configs !! qos with
      | None => updateAgain order' configs
      | Some config =>
          err <~ call (Update config) (EvUpdate config) ;;
          match err with
          | Some e => ret (Some e)
          | None => updateAgain order' configs
          end
      end
  end.

(** The map literal [UpdateCgroups] starts from. *)
Definition newConfigs (m : qosContainerManagerImpl) : Configs :=
  {[ PodQOSBurstable :=
       {| Name := Burstable (qosContainersInfo m);
          ResourceParameters := {| Memory := None; CpuShares := None |} |};
     PodQOSBestEffort :=
       {| Name := BestEffort (qosContainersInfo m);
          ResourceParameters := {| Memory := None; CpuShares := None |} |}
  ]}.

(** The end of [UpdateCgroups], reached when a write of the first round
    failed: the adjustment, then the second round of writes. *)
Definition secondRound (m : qosContainerManagerImpl)
  (oR o2 : list PodQOSClass) (qosConfigs : Configs) : M (option error) :=
  qosConfigs <~
    retryReserveResources (map_to_list (qosReserved m)) oR qosConfigs ;;
  updateAgain o2 qosConfigs.

(** [UpdateCgroups].  [o1], [oR] and [o2] are the orders in which the
    three [range] loops over [qosConfigs] come across its keys.  The
    mutex held around the body has no effect on a single pass. *)
Definition UpdateCgroups (m : qosContainerManagerImpl)
  (o1 oR o2 : list PodQOSClass) : M (option error) :=
  let qosConfigs := newConfigs m in
  r <~ setCPUCgroupConfig m qosConfigs ;;
  match r with
  | (Some err, _) => ret (Some err)
  | (None, qosConfigs) =>
      qosConfigs <~
        reserveResources m (map_to_list (qosReserved m)) qosConfigs ;;
      updateSuccess <~ updateAll o1 qosConfigs true ;;
      if updateSuccess then ret None
      else secondRound m oR o2 qosConfigs
  end.

(** *** Bootstrap *)

(** The config [Start] builds for a tier. *)
Definition startConfig (rootContainer : string) (qosClass : PodQOSClass)
  : CgroupConfig :=
  let absoluteContainerName :=
    path_Join rootContainer (PodQOSClass_string qosClass) in
  let resourceParameters := {| Memory := None; CpuShares := None |} in
  let resourceParameters :=
    if decide (qosClass = PodQOSBestEffort) then
      let minShares := MinShares in
      {| Memory := Memory resourceParameters; CpuShares := Some minShares |}
    else resourceParameters in
  {| Name := absoluteContainerName;
     ResourceParameters := resourceParameters |}.

(** The loop of [Start] over [qosClasses]; [Some err] is the early
    [return] of a failed create or update. *)
Fixpoint startContainers (rootContainer : string)
  (qosClasses : list PodQOSClass) : M (option error) :=
  match qosClasses with
  | [] => ret None
  | qosClass :: qosClasses' =>
      let containerConfig := startConfig rootContainer qosClass in
      exists_ <~ call (Exists (Name containerConfig))
                      (EvExists (Name containerConfig)) ;;
      if negb exists_ then
        err <~ call (Create containerConfig) (EvCreate containerConfig) ;;
        match err with
        | Some e =>
            ret (Some ("failed to create top level "
                       +:+ PodQOSClass_string qosClass
                       +:+ " QOS cgroup : " +:+ e))
        | None => startContainers rootContainer qosClasses'
        end
      else
        err <~ call (Update containerConfig) (EvUpdate containerConfig) ;;
        match err with
        | Some e =>
            ret (Some ("failed to update top level "
                       +:+ PodQOSClass_string qosClass
                       +:+ " QOS cgroup : " +:+ e))
        | None => startContainers rootContainer qosClasses'
        end
  end.

(** [Start] returns its error together with the manager as it leaves
    it.  The background loop it launches on success is a sequence of
    later [UpdateCgroups] passes and is not part of the call. *)
Definition Start (m : qosContainerManagerImpl)
  (getNodeAllocatable' : D -> ResourceList * D)
  (activePods' : D -> list Pod * D)
  : M (option error * qosContainerManagerImpl) :=
  let rootContainer := cgroupRoot m in
  exists_ <~ call (Exists rootContainer) (EvExists rootContainer) ;;
  if negb exists_ then
    ret (Some ("root container " +:+ rootContainer +:+ " doesn't exist"), m)
  else
    let qosClasses := [PodQOSBurstable; PodQOSBestEffort] in
    err <~ startContainers rootContainer qosClasses ;;
    match err with
    | Some e => ret (Some e, m)
    | None =>
        ret (None,
             {| qosContainersInfo :=
                  {| Guaranteed := rootContainer;
                     Burstable :=
                       path_Join rootContainer
                         (PodQOSClass_string PodQOSBurstable);
                     BestEffort :=
                       path_Join rootContainer
                         (PodQOSClass_string PodQOSBestEffort) |};
                activePods := Some activePods';
                getNodeAllocatable := Some getNodeAllocatable';
                cgroupRoot := cgroupRoot m;
                qosReserved := qosReserved m |})
    end.

Definition GetQOSContainersInfo (m : qosContainerManagerImpl)
  : QOSContainersInfo := qosContainersInfo m.

(** *** Construction and the no-op variant *)

(** The fields of [NodeConfig] the constructor reads. *)
Record NodeConfig : Type := mkNodeConfig {
  CgroupsPerQOS : bool;
  CgroupRoot : string;
  CgroupDriver : string;
  ExperimentalQOSReserved : gmap string Z
}.

Record qosContainerManagerNoop : Type := mkNoop {
  noop_cgroupRoot : string
}.

(** A value of the interface [QOSContainerManager] is of one of its two
    implementations. *)
Inductive QOSContainerManager : Type :=
  | ManagerImpl (m : qosContainerManagerImpl)
  | ManagerNoop (m : qosContainerManagerNoop).

(** [NewQOSContainerManager].  The driver [NewCgroupManager] builds from
    [subsystems] and [nodeConfig.CgroupDriver] is the [CgroupManager] of
    this section; the fields the constructor does not name are zero. *)
Definition NewQOSContainerManager (cgroupRoot' : string)
  (nodeConfig : NodeConfig) : QOSContainerManager * option error :=
  if negb (CgroupsPerQOS nodeConfig) then
    (ManagerNoop {| noop_cgroupRoot := CgroupRoot nodeConfig |}, None)
  else
    (ManagerImpl
       {| qosContainersInfo :=
            {| Guaranteed := ""; Burstable := ""; BestEffort := "" |};
          activePods := None;
          getNodeAllocatable := None;
          cgroupRoot := cgroupRoot';
          qosReserved := ExperimentalQOSReserved nodeConfig |},
     None).

Definition noop_GetQOSContainersInfo (m : qosContainerManagerNoop)
  : QOSContainersInfo :=
  {| Guaranteed := ""; Burstable := ""; BestEffort := "" |}.

Definition noop_Start (m : qosContainerManagerNoop)
  (getNodeAllocatable' : D -> ResourceList * D)
  (activePods' : D -> list Pod * D) : M (option error) :=
  ret None.

Definition noop_UpdateCgroups (m : qosContainerManagerNoop)
  : M (option error) :=
  ret None.

(** The three methods, called through the interface. *)
Definition interface_Start (qm : QOSContainerManager)
  (getNodeAllocatable' : D -> ResourceList * D)
  (activePods' : D -> list Pod * D)
  : M (option error * QOSContainerManager) :=
  match qm with
  | ManagerImpl m =>
      r <~ Start m getNodeAllocatable' activePods' ;;
      ret (r.1, ManagerImpl r.2)
  | ManagerNoop m =>
      err <~ noop_Start m getNodeAllocatable' activePods' ;;
      ret (err, ManagerNoop m)
  end.

Definition interface_GetQOSContainersInfo (qm : QOSContainerManager)
  : QOSContainersInfo :=
  match qm with
  | ManagerImpl m => GetQOSContainersInfo m
  | ManagerNoop m => noop_GetQOSContainersInfo m
  end.

Definition interface_UpdateCgroups (qm : QOSContainerManager)
  (o1 oR o2 : list PodQOSClass) : M (option error) :=
  match qm with
  | ManagerImpl m => UpdateCgroups m o1 oR o2
  | ManagerNoop m => noop_UpdateCgroups m
  end.

(** *** What the loops compute, in the words of the specification *)

(** The memory request (bytes) of a pod, zero when it declares none. *)
Definition podMemoryRequest (pod : Pod) : Z :=
  match PodRequestsAndLimits pod with
  | inl (req, _) =>
      match req !! ResourceMemory with
      | Some request => Value request
      | None => 0
      end
  | inr _ => 0
  end.

(** The sum of the memory requests of the pods of tier [qos]. *)
Fixpoint memoryRequestSum (qos : PodQOSClass) (pods : list Pod) : Z :=
  match pods with
  | [] => 0
  | pod :: pods' =>
      (if decide (GetPodQOS pod = qos) then podMemoryRequest pod else 0)
      + memoryRequestSum qos pods'
  end.

(** The CPU request (milli-units) of a pod, zero when it declares none. *)
Definition podCPURequest (pod : Pod) : Z :=
  match PodRequestsAndLimits pod with
  | inl (req, _) =>
      match req !! ResourceCPU with
      | Some request => MilliValue request
      | None => 0
      end
  | inr _ => 0
  end.

(** The sum of the CPU requests of exactly the Burstable pods. *)
Fixpoint burstableCPURequestSum (pods : list Pod) : Z :=
  match pods with
  | [] => 0
  | pod :: pods' =>
      (if decide (GetPodQOS pod = PodQOSBurstable) then podCPURequest pod
       else 0)
      + burstableCPURequestSum pods'
  end.

(** The requests of a pod can be determined. *)
Definition determinable (pod : Pod) : Prop :=
  exists req lim, PodRequestsAndLimits pod = inl (req, lim).

(** *** The vocabulary of the statements *)


(** The targets a config map holds for a tier; [None] also when the map
    has no config for it. *)
Definition tierCpuShares (configs : Configs) (qos : PodQOSClass) : option Z :=
  match configs !! qos with
  | Some c => CpuShares (ResourceParameters c)
  | None => None
  end.

Definition tierMemory (configs : Configs) (qos : PodQOSClass) : option Z :=
  match configs !! qos with
  | Some c => Memory (ResourceParameters c)
  | None => None
  end.

(** The statement of C3: after the CPU-share computation the BestEffort
    config holds [MinShares] and the Burstable config the larger of
    [MinShares] and the converted sum of the Burstable pods' requests. *)
Definition cpu_shares_set (m : qosContainerManagerImpl) (configs : Configs)
  (d : D) : Prop :=
  exists r configs' d' pods,
    setCPUCgroupConfig m configs d
    = Some ((r, configs'), d', [EvActivePods pods]) /\
    tierCpuShares configs' PodQOSBestEffort = Some MinShares /\
    tierCpuShares configs' PodQOSBurstable
    = Some (Z.max MinShares
              (MilliCPUToShares
                 (Int64.wrap (burstableCPURequestSum pods)))).

(** What the adjustment makes of a tier's config on reading [usage]. *)
Definition adjusted (usage : Z) (c : CgroupConfig) : CgroupConfig :=
  match Memory (ResourceParameters c) with
  | Some limit => if usage >? limit then withMemory (Some usage) c else c
  | None => c
  end.

(** A [range] over a config map meets each of its keys once. *)
Definition range_order (configs : Configs) (order : list PodQOSClass) : Prop :=
  NoDup order /\ forall q, q ∈ order <-> is_Some (configs !! q).

Definition is_update (ev : event) : Prop :=
  match ev with EvUpdate _ _ => True | _ => False end.

Definition is_stats_read (ev : event) : Prop :=
  match ev with EvGetResourceStats _ _ => True | _ => False end.

Definition is_accessor_read (ev : event) : Prop :=
  match ev with
  | EvActivePods _ | EvNodeAllocatable _ => True
  | _ => False
  end.

(** Every config of the map has a nil memory target. *)
Definition memory_nil (configs : Configs) : Prop :=
  forall q c, configs !! q = Some c -> Memory (ResourceParameters c) = None.

(** Node-allocatable memory is absent from the resource list, or zero. *)
Definition memory_unusable (resources : ResourceList) : Prop :=
  forall allocatableResource,
    resources !! ResourceMemory = Some allocatableResource ->
    Value allocatableResource = 0.

(** The number of calls of [m.activePods] in a log. *)
Fixpoint activePodsReads (evs : list event) : nat :=
  match evs with
  | [] => 0
  | EvActivePods _ :: evs' => S (activePodsReads evs')
  | _ :: evs' => activePodsReads evs'
  end.

(** In a pass [setCPUCgroupConfig] reads the active pods once and
    [setMemoryReserve], which starts with that read, once more: the
    memory reservation ran when the log has the second read. *)
Definition memory_reservation_ran (evs : list event) : Prop :=
  (2 <= activePodsReads evs)%nat.

(** The statement of C4: in a pass whose CPU-share computation fails,
    the memory reservation still runs. *)
Definition cpu_failure_spares_memory (m : qosContainerManagerImpl)
  (o1 oR o2 : list PodQOSClass) (d : D) : Prop :=
  exists res d' evs,
    UpdateCgroups m o1 oR o2 d = Some (res, d', evs) /\
    memory_reservation_ran evs.



(** *** The vocabulary of the further properties *)

(** The pods the CPU-share computation looks at. *)
Definition isBurstable (pod : Pod) : bool :=
  bool_decide (GetPodQOS pod = PodQOSBurstable).

(** The pods the memory reservation looks at. *)
Definition notBestEffort (pod : Pod) : bool :=
  negb (bool_decide (GetPodQOS pod = PodQOSBestEffort)).

(** What the adjustment may make of a config: the same name and CPU
    shares; a nil memory target stays nil, a set one is kept or raised. *)
Definition raised (c c' : CgroupConfig) : Prop :=
  Name c' = Name c /\
  CpuShares (ResourceParameters c') = CpuShares (ResourceParameters c) /\
  match Memory (ResourceParameters c) with
  | None => Memory (ResourceParameters c') = None
  | Some limit =>
      exists limit', Memory (ResourceParameters c') = Some limit' /\
                     limit <= limit'
  end.

(** The two maps hold configs for the same tiers, under the same names. *)
Definition same_names (configs configs' : Configs) : Prop :=
  forall q,
    match configs !! q, configs' !! q with
    | Some c, Some c' => Name c' = Name c
    | None, None => True
    | _, _ => False
    end.



(** The config the first round writes for a tier when both computations
    run to their end. *)
Definition firstRoundConfig (m : qosContainerManagerImpl)
  (burstableCPUShares burstableLimit bestEffortLimit : Z)
  (qos : PodQOSClass) : option CgroupConfig :=
  match qos with
  | PodQOSGuaranteed => None
  | PodQOSBurstable =>
      Some {| Name := Burstable (qosContainersInfo m);
              ResourceParameters :=
                {| Memory := Some burstableLimit;
                   CpuShares := Some burstableCPUShares |} |}
  | PodQOSBestEffort =>
      Some {| Name := BestEffort (qosContainersInfo m);
              ResourceParameters :=
                {| Memory := Some bestEffortLimit;
                   CpuShares := Some MinShares |} |}
  end.

(** A call of a pass that manages no memory: a read of the active pods,
    or a write that carries no memory target. *)
Definition cpu_only_event (ev : event) : Prop :=
  match ev with
  | EvActivePods _ => True
  | EvUpdate c _ => Memory (ResourceParameters c) = None
  | _ => False
  end.



(** *** Running computations *)

Lemma bind_run {A B} (c : M A) (k : A -> M B) d a d1 evs1 :
  c d = Some (a, d1, evs1) ->
  bind c k d =
    match k a d1 with
    | Some (b, d2, evs2) => Some (b, d2, evs1 ++ evs2)
    | None => None
    end.
Proof. intros Hc. unfold bind. by rewrite Hc. Qed.

Lemma bind_ret_run {A B} (a : A) (k : A -> M B) d : bind (ret a) k d = k a d.
Proof. unfold bind, ret. by destruct (k a d) as [[[b d2] evs2]|]. Qed.

Lemma call_run {A} (f : D -> A * D) (ev : A -> event) d a d' :
  f d = (a, d') -> call f ev d = Some (a, d', [ev a]).
Proof. intros Hf. unfold call. by rewrite Hf. Qed.

Lemma call_activePods_run m f d pods d' :
  activePods m = Some f -> f d = (pods, d') ->
  call_activePods m d = Some (pods, d', [EvActivePods pods]).
Proof. intros Hm Hf. unfold call_activePods. rewrite Hm. by apply call_run. Qed.

Lemma call_getNodeAllocatable_run m g d resources d' :
  getNodeAllocatable m = Some g -> g d = (resources, d') ->
  call_getNodeAllocatable m d
  = Some (resources, d', [EvNodeAllocatable resources]).
Proof.
  intros Hm Hg. unfold call_getNodeAllocatable. rewrite Hm. by apply call_run.
Qed.

(** *** Memory reservation *)

Lemma wrap_add_r a b : Int64.wrap (a + Int64.wrap b) = Int64.wrap (a + b).
Proof. rewrite Z.add_comm, Int64.wrap_add_l. f_equal; lia. Qed.

Lemma getRequests_insert (qmr : gmap PodQOSClass Z) q q' v :
  getRequests (<[q := v]> qmr) q' = if decide (q = q') then v
                                    else getRequests qmr q'.
Proof.
  unfold getRequests. rewrite lookup_insert. by case_decide.
Qed.

(** When every non-BestEffort pod is determinable, the loop runs to its
    end and has added, tier by tier, the requests of the pods. *)
Lemma sumMemoryRequests_sum pods :
  (forall pod, pod ∈ pods -> GetPodQOS pod <> PodQOSBestEffort ->
               determinable pod) ->
  forall qmr, exists qmr',
    sumMemoryRequests pods qmr = Some qmr' /\
    forall q, q <> PodQOSBestEffort ->
      Int64.wrap (getRequests qmr' q)
      = Int64.wrap (getRequests qmr q + memoryRequestSum q pods).
Proof.
  induction pods as [|pod pods IH]; intros Hdet qmr; simpl.
  - exists qmr. split; [done|]. intros q _. f_equal; lia.
  - assert (Hdet' : forall pod', pod' ∈ pods ->
              GetPodQOS pod' <> PodQOSBestEffort -> determinable pod').
    { intros pod' Hin. apply Hdet. by right. }
    case_decide as Hbe.
    + destruct (IH Hdet' qmr) as (qmr' & Hrun & Hsum).
      exists qmr'. split; [done|]. intros q Hq. rewrite (Hsum q Hq).
      case_decide; [congruence|]. f_equal; lia.
    + destruct (Hdet pod ltac:(by left) Hbe) as (req & lim & Hreq).
      unfold podMemoryRequest. rewrite Hreq.
      match goal with |- context [sumMemoryRequests pods ?x] =>
        destruct (IH Hdet' x) as (qmr' & Hrun & Hsum) end.
      exists qmr'. split; [done|]. intros q Hq. rewrite (Hsum q Hq).
      rewrite getRequests_insert. unfold Int64.add.
      case_decide as Hqq.
      * subst q. rewrite Int64.wrap_add_l.
        destruct (req !! ResourceMemory) as [request|].
        -- rewrite Z.add_0_l.
           rewrite <- (Z.add_assoc _ (Int64.wrap _)).
           rewrite (Z.add_comm (Int64.wrap _)).
           rewrite Z.add_assoc, wrap_add_r. f_equal; lia.
        -- f_equal; lia.
      * f_equal; lia.
Qed.

Lemma sumMemoryRequests_in_range pods :
  forall qmr qmr',
    (forall q, Int64.in_range (getRequests qmr q)) ->
    sumMemoryRequests pods qmr = Some qmr' ->
    forall q, Int64.in_range (getRequests qmr' q).
Proof.
  induction pods as [|pod pods IH]; intros qmr qmr' Hr; simpl.
  - intros [= <-]. done.
  - case_decide; [by apply IH|].
    destruct (PodRequestsAndLimits pod) as [[req lim]|e]; [|done].
    apply IH. intros q. rewrite getRequests_insert.
    case_decide; [apply Int64.wrap_in_range | apply Hr].
Qed.

Lemma getRequests_init_in_range q :
  Int64.in_range
    (getRequests {[ PodQOSGuaranteed := 0; PodQOSBurstable := 0 ]} q).
Proof. destruct q; vm_compute; split; discriminate. Qed.

Lemma bind_inv {A B} (c : M A) (k : A -> M B) d b d2 evs :
  bind c k d = Some (b, d2, evs) ->
  exists a d1 evs1 evs2,
    c d = Some (a, d1, evs1) /\ k a d1 = Some (b, d2, evs2) /\
    evs = evs1 ++ evs2.
Proof.
  unfold bind. destruct (c d) as [[[a d1] evs1]|]; [|done].
  destruct (k a d1) as [[[b' d2'] evs2]|] eqn:Hk; [|done].
  intros [= <- <- <-]. by exists a, d1, evs1, evs2.
Qed.

Lemma ret_inv {A} (a b : A) d d' evs :
  ret a d = Some (b, d', evs) -> b = a /\ d' = d /\ evs = [].
Proof. by intros [= <- <- <-]. Qed.

Lemma reserveResources_no_memory m entries :
  ResourceMemory ∉ entries.*1 ->
  forall configs d, reserveResources m entries configs d = ret configs d.
Proof.
  induction entries as [|[r p] entries IH]; intros Hnin configs d;
    simpl in *; [done|].
  apply not_elem_of_cons in Hnin as [Hne Hnin].
  case_decide as Hr; [congruence|]. by apply IH.
Qed.

(** The [range] over [m.qosReserved] reaches the memory case exactly
    when the map holds [v1.ResourceMemory], then with its percentage, in
    whatever order the entries come. *)
Lemma reserveResources_memory m entries percentReserve :
  NoDup entries.*1 -> (ResourceMemory, percentReserve) ∈ entries ->
  forall configs d,
    reserveResources m entries configs d
    = setMemoryReserve m configs percentReserve d.
Proof.
  induction entries as [|[r p] entries IH]; intros Hnd Hin configs d.
  - by apply elem_of_nil in Hin.
  - simpl in *. apply NoDup_cons in Hnd as [Hnin Hnd].
    case_decide as Hr.
    + subst r. assert (p = percentReserve) as ->.
      { apply elem_of_cons in Hin as [[= ->]|Hin]; [done|].
        exfalso. apply Hnin. apply list_elem_of_fmap.
        by exists (ResourceMemory, percentReserve). }
      unfold bind.
      destruct (setMemoryReserve m configs percentReserve d)
        as [[[configs' d'] evs]|]; [|done].
      rewrite (reserveResources_no_memory _ _ Hnin). unfold ret. by rewrite app_nil_r.
    + apply IH; [done|].
      apply elem_of_cons in Hin as [[= ? ?]|Hin]; [congruence|done].
Qed.

Lemma reserveResources_qosReserved m percentReserve configs d :
  qosReserved m !! ResourceMemory = Some percentReserve ->
  reserveResources m (map_to_list (qosReserved m)) configs d
  = setMemoryReserve m configs percentReserve d.
Proof.
  intros Hp. apply reserveResources_memory.
  - apply NoDup_fst_map_to_list.
  - by apply elem_of_map_to_list.
Qed.

(** The run of [setMemoryReserve] that gets to the two assignments. *)
Lemma setMemoryReserve_run m configs percentReserve f g d pods d1
  resources d2 allocatableResource cb ce :
  activePods m = Some f -> f d = (pods, d1) ->
  (forall pod, pod ∈ pods -> GetPodQOS pod <> PodQOSBestEffort ->
               determinable pod) ->
  getNodeAllocatable m = Some g -> g d1 = (resources, d2) ->
  resources !! ResourceMemory = Some allocatableResource ->
  Value allocatableResource <> 0 ->
  configs !! PodQOSBurstable = Some cb ->
  configs !! PodQOSBestEffort = Some ce ->
  let burstableLimit :=
    memoryLimit (Value allocatableResource)
      (Int64.wrap (memoryRequestSum PodQOSGuaranteed pods))
      percentReserve in
  let bestEffortLimit :=
    memoryLimit burstableLimit
      (Int64.wrap (memoryRequestSum PodQOSBurstable pods))
      percentReserve in
  setMemoryReserve m configs percentReserve d
  = Some (<[PodQOSBestEffort := withMemory (Some bestEffortLimit) ce]>
            (<[PodQOSBurstable := withMemory (Some burstableLimit) cb]>
               configs),
          d2, [EvActivePods pods; EvNodeAllocatable resources]).
Proof.
  intros Hf Hfd Hdet Hg Hgd Hmem Hnz Hcb Hce. simpl.
  unfold setMemoryReserve.
  rewrite (bind_run _ _ _ _ _ _ (call_activePods_run _ _ _ _ _ Hf Hfd)).
  destruct (sumMemoryRequests_sum pods Hdet
              {[ PodQOSGuaranteed := 0; PodQOSBurstable := 0 ]})
    as (qmr & Hrun & Hsum).
  rewrite Hrun.
  rewrite (bind_run _ _ _ _ _ _
             (call_getNodeAllocatable_run _ _ _ _ _ Hg Hgd)).
  rewrite Hmem.
  destruct (Z.eqb_spec (Value allocatableResource) 0) as [|_]; [done|].
  pose proof (sumMemoryRequests_in_range _ _ _
                getRequests_init_in_range Hrun) as Hr.
  assert (HG : getRequests qmr PodQOSGuaranteed
               = Int64.wrap (memoryRequestSum PodQOSGuaranteed pods)).
  { rewrite <- (Int64.wrap_id _ (Hr PodQOSGuaranteed)).
    by rewrite (Hsum PodQOSGuaranteed). }
  assert (HB : getRequests qmr PodQOSBurstable
               = Int64.wrap (memoryRequestSum PodQOSBurstable pods)).
  { rewrite <- (Int64.wrap_id _ (Hr PodQOSBurstable)).
    by rewrite (Hsum PodQOSBurstable). }
  rewrite HG, HB. unfold setMemory, bind, ret. rewrite Hcb.
  rewrite lookup_insert_ne by done. rewrite Hce. done.
Qed.

(** In the absence of overflow the [int64] expression of a limit is the
    mathematical one, the division truncating toward zero. *)
Lemma memoryLimit_exact upper requests percentReserve :
  Int64.in_range (requests * percentReserve) ->
  Int64.in_range (upper - requests * percentReserve ÷ 100) ->
  memoryLimit upper requests percentReserve
  = upper - requests * percentReserve ÷ 100.
Proof.
  intros Hmul Hsub. unfold memoryLimit, Int64.sub, Int64.mul.
  rewrite (Int64.wrap_id _ Hmul).
  rewrite (Int64.quot_100_id _ Hmul). by apply Int64.wrap_id.
Qed.

(** C1: in a pass whose memory reservation runs to completion (memory is
    in the reserved-resource map with percentage P, every active
    non-BestEffort pod is determinable, node-allocatable memory A is
    present and nonzero), the Burstable config gets the memory limit
    A - (G*P/100) and the BestEffort config that limit minus B*P/100,
    where G and B are the request sums of the Guaranteed and Burstable
    pods; the arithmetic is that of int64, the division truncating
    toward zero, and coincides with the mathematical one when nothing
    overflows. *)
Theorem memory_reserve_limits m configs percentReserve f g d pods d1
  resources d2 allocatableResource cb ce :
  qosReserved m !! ResourceMemory = Some percentReserve ->
  activePods m = Some f -> f d = (pods, d1) ->
  (forall pod, pod ∈ pods -> GetPodQOS pod <> PodQOSBestEffort ->
               determinable pod) ->
  getNodeAllocatable m = Some g -> g d1 = (resources, d2) ->
  resources !! ResourceMemory = Some allocatableResource ->
  Value allocatableResource <> 0 ->
  configs !! PodQOSBurstable = Some cb ->
  configs !! PodQOSBestEffort = Some ce ->
  let A := Value allocatableResource in
  let P := percentReserve in
  let Gsum := memoryRequestSum PodQOSGuaranteed pods in
  let Bsum := memoryRequestSum PodQOSBurstable pods in
  let G := Int64.wrap Gsum in
  let B := Int64.wrap Bsum in
  let burstableLimit := Int64.sub A (Int64.quot (Int64.mul G P) 100) in
  let bestEffortLimit :=
    Int64.sub burstableLimit (Int64.quot (Int64.mul B P) 100) in
  exists configs',
    reserveResources m (map_to_list (qosReserved m)) configs d
    = Some (configs', d2, [EvActivePods pods; EvNodeAllocatable resources])
    /\ configs' !! PodQOSBurstable
       = Some (withMemory (Some burstableLimit) cb)
    /\ configs' !! PodQOSBestEffort
       = Some (withMemory (Some bestEffortLimit) ce)
    /\ (Int64.in_range Gsum -> Int64.in_range (Gsum * P) ->
        Int64.in_range (A - Gsum * P ÷ 100) ->
        Int64.in_range Bsum -> Int64.in_range (Bsum * P) ->
        Int64.in_range (A - Gsum * P ÷ 100 - Bsum * P ÷ 100) ->
        burstableLimit = A - Gsum * P ÷ 100 /\
        bestEffortLimit = A - Gsum * P ÷ 100 - Bsum * P ÷ 100).
Proof.
  intros HP Hf Hfd Hdet Hg Hgd Hmem Hnz Hcb Hce A P Gsum Bsum G B
    burstableLimit bestEffortLimit.
  eexists. split; [|split; [|split]].
  - rewrite (reserveResources_qosReserved _ _ _ _ HP).
    by eapply setMemoryReserve_run.
  - rewrite lookup_insert_ne by done. by rewrite lookup_insert_eq.
  - by rewrite lookup_insert_eq.
  - intros HG HGP HbuR HB HBP HbeR.
    assert (Hbu : burstableLimit = A - Gsum * P ÷ 100).
    { subst burstableLimit G. rewrite (Int64.wrap_id _ HG).
      by apply (memoryLimit_exact A Gsum P). }
    split; [done|].
    subst bestEffortLimit B. rewrite Hbu, (Int64.wrap_id _ HB).
    by apply (memoryLimit_exact (A - Gsum * P ÷ 100) Bsum P).
Qed.


(** *** CPU shares *)

Lemma sumBurstableCPU_sum pods :
  (forall pod, pod ∈ pods -> GetPodQOS pod = PodQOSBurstable ->
               determinable pod) ->
  forall acc, Int64.in_range acc ->
    exists S, sumBurstableCPU pods acc = inl S /\
              S = Int64.wrap (acc + burstableCPURequestSum pods).
Proof.
  induction pods as [|pod pods IH]; intros Hdet acc Hacc; simpl.
  - exists acc. split; [done|]. rewrite Z.add_0_r. by rewrite Int64.wrap_id.
  - assert (Hdet' : forall pod', pod' ∈ pods ->
              GetPodQOS pod' = PodQOSBurstable -> determinable pod').
    { intros pod' Hin. apply Hdet. by right. }
    case_decide as Hq.
    + destruct (IH Hdet' acc Hacc) as (S & Hrun & HS).
      exists S. split; [done|]. rewrite HS.
      case_decide; [congruence|]. f_equal; lia.
    + pose proof Hq as Hb.
      destruct (Hdet pod ltac:(by left) Hb) as (req & lim & Hreq).
      unfold podCPURequest. rewrite Hreq.
      case_decide; [|congruence].
      destruct (req !! ResourceCPU) as [request|].
      * destruct (IH Hdet' (Int64.add acc (MilliValue request))
                    (Int64.wrap_in_range _)) as (S & Hrun & HS).
        exists S. split; [done|]. rewrite HS. unfold Int64.add.
        rewrite Int64.wrap_add_l. f_equal; lia.
      * destruct (IH Hdet' acc Hacc) as (S & Hrun & HS).
        exists S. split; [done|]. rewrite HS. f_equal; lia.
Qed.

(** The loop returns an error exactly as it got it from a Burstable pod. *)
Lemma sumBurstableCPU_error pods :
  forall acc err, sumBurstableCPU pods acc = inr err ->
    exists pod, pod ∈ pods /\ GetPodQOS pod = PodQOSBurstable /\
                PodRequestsAndLimits pod = inr err.
Proof.
  induction pods as [|pod pods IH]; intros acc err; simpl; [done|].
  case_decide as Hq.
  - intros Hrun. destruct (IH _ _ Hrun) as (pod' & Hin & Hp).
    exists pod'. split; [by right|done].
  - pose proof Hq as Hb.
    destruct (PodRequestsAndLimits pod) as [[req lim]|e] eqn:Hreq.
    + intros Hrun.
      assert (exists acc', sumBurstableCPU pods acc' = inr err) as [acc' Hrun'].
      { destruct (req !! ResourceCPU); eauto. }
      destruct (IH _ _ Hrun') as (pod' & Hin & Hp).
      exists pod'. split; [by right|done].
    + intros [= <-]. exists pod. split; [by left|done].
Qed.

Lemma clamp_max shares :
  (if shares <? MinShares then MinShares else shares)
  = Z.max MinShares shares.
Proof. destruct (Z.ltb_spec shares MinShares); lia. Qed.

(** The run of [setCPUCgroupConfig] that gets to the two assignments. *)
Lemma setCPUCgroupConfig_run m configs f d pods d1 cb ce :
  activePods m = Some f -> f d = (pods, d1) ->
  (forall pod, pod ∈ pods -> GetPodQOS pod = PodQOSBurstable ->
               determinable pod) ->
  configs !! PodQOSBurstable = Some cb ->
  configs !! PodQOSBestEffort = Some ce ->
  setCPUCgroupConfig m configs d
  = Some ((None,
           <[PodQOSBurstable :=
               withCpuShares
                 (Some (Z.max MinShares
                          (MilliCPUToShares
                             (Int64.wrap (burstableCPURequestSum pods)))))
                 cb]>
             (<[PodQOSBestEffort := withCpuShares (Some MinShares) ce]>
                configs)),
          d1, [EvActivePods pods]).
Proof.
  intros Hf Hfd Hdet Hcb Hce. unfold setCPUCgroupConfig.
  rewrite (bind_run _ _ _ _ _ _ (call_activePods_run _ _ _ _ _ Hf Hfd)).
  destruct (sumBurstableCPU_sum pods Hdet 0) as (S & Hrun & HS).
  { vm_compute. split; discriminate. }
  rewrite Hrun, HS, Z.add_0_l, clamp_max.
  unfold setCpuShares, bind, ret. rewrite Hce.
  rewrite lookup_insert_ne by done. by rewrite Hcb.
Qed.

(** C3, amended: for every active-pod population in which the requests
    of every Burstable pod can be determined, the CPU-share computation
    sets the BestEffort CPU shares to MinShares and the Burstable CPU
    shares to max(MinShares, convert(S)), S being the int64 sum of the
    CPU requests of exactly the Burstable pods; it returns no error and
    changes nothing else in the configs. *)
Theorem cpu_shares_determinable m configs f d pods d1 cb ce :
  activePods m = Some f -> f d = (pods, d1) ->
  (forall pod, pod ∈ pods -> GetPodQOS pod = PodQOSBurstable ->
               determinable pod) ->
  configs !! PodQOSBurstable = Some cb ->
  configs !! PodQOSBestEffort = Some ce ->
  cpu_shares_set m configs d /\
  exists configs',
    setCPUCgroupConfig m configs d
    = Some ((None, configs'), d1, [EvActivePods pods]) /\
    configs' !! PodQOSBestEffort
    = Some (withCpuShares (Some MinShares) ce) /\
    configs' !! PodQOSBurstable
    = Some (withCpuShares
              (Some (Z.max MinShares
                       (MilliCPUToShares
                          (Int64.wrap (burstableCPURequestSum pods))))) cb) /\
    forall q, q <> PodQOSBurstable -> q <> PodQOSBestEffort ->
              configs' !! q = configs !! q.
Proof.
  intros Hf Hfd Hdet Hcb Hce.
  pose proof (setCPUCgroupConfig_run _ _ _ _ _ _ _ _ Hf Hfd Hdet Hcb Hce)
    as Hrun.
  split.
  - eexists _, _, _, _. split; [exact Hrun|]. unfold tierCpuShares.
    rewrite lookup_insert_ne by done. rewrite !lookup_insert_eq. done.
  - eexists. split; [exact Hrun|]. split; [|split].
    + rewrite lookup_insert_ne by done. by rewrite lookup_insert_eq.
    + by rewrite lookup_insert_eq.
    + intros q Hq1 Hq2. by rewrite !lookup_insert_ne.
Qed.

(** *** The second-round adjustment *)

Lemma adjusted_insert (configs : Configs) q c usage :
  configs !! q = Some c ->
  match Memory (ResourceParameters c) with
  | Some limit =>
      if usage >? limit then <[q := withMemory (Some usage) c]> configs
      else configs
  | None => configs
  end = <[q := adjusted usage c]> configs.
Proof.
  intros Hq. unfold adjusted.
  destruct (Memory (ResourceParameters c)) as [limit|];
    [destruct (usage >? limit); [done|] |]; by rewrite insert_id.
Qed.

(** The loop never panics.  Its reads are one per tier, in the order of
    the loop, up to and including the first read that fails; a tier read
    with success holds its adjusted config, every other tier the config
    it came with. *)
Lemma retrySetMemoryReserve_spec order percentReserve :
  forall (configs : Configs) d,
    NoDup order -> (forall q, q ∈ order -> is_Some (configs !! q)) ->
    exists configs' d' evs,
      retrySetMemoryReserve order configs percentReserve d
      = Some (configs', d', evs) /\
      (forall k ev, evs !! k = Some ev ->
         exists q c r,
           order !! k = Some q /\ configs !! q = Some c /\
           ev = EvGetResourceStats (Name c) r /\
           match r with
           | inl stats =>
               configs' !! q = Some (adjusted (Usage (MemoryStats_ stats)) c)
           | inr _ => length evs = S k /\ configs' !! q = Some c
           end) /\
      (forall j q, (length evs <= j)%nat -> order !! j = Some q ->
                   configs' !! q = configs !! q) /\
      (forall q, q ∉ order -> configs' !! q = configs !! q).
Proof.
  induction order as [|q order IH]; intros configs d Hnd Hkeys; simpl.
  - exists configs, d, []. split; [done|]. split; [|done].
    intros k ev Hk. by rewrite lookup_nil in Hk.
  - apply NoDup_cons in Hnd as [Hnin Hnd].
    destruct (Hkeys q ltac:(by left)) as [c Hc]. rewrite Hc.
    unfold bind, call.
    destruct (GetResourceStats (Name c) d) as [[stats|err] d1].
    + rewrite (adjusted_insert _ _ _ _ Hc).
      set (usage := Usage (MemoryStats_ stats)).
      destruct (IH (<[q := adjusted usage c]> configs) d1 Hnd)
        as (configs' & d' & evs & Hrun & Hevs & Hlate & Hframe).
      { intros q' Hq'. rewrite lookup_insert. case_decide; [by eexists|].
        apply Hkeys. by right. }
      rewrite Hrun. eexists _, _, _. split; [done|].
      split; [|split].
      * intros [|k] ev Hk; simpl in Hk.
        -- injection Hk as <-. exists q, c, (inl stats).
           split; [done|]. split; [done|]. split; [done|].
           rewrite (Hframe q Hnin). by rewrite lookup_insert_eq.
        -- destruct (Hevs k ev Hk) as (q' & c' & r & Hq' & Hc' & -> & Hr).
           assert (q <> q').
           { intros ->. apply Hnin. by eapply list_elem_of_lookup_2. }
           rewrite lookup_insert_ne in Hc' by done.
           exists q', c', r. split; [done|]. split; [done|].
           split; [done|]. destruct r as [stats'|err']; [done|].
           destruct Hr as [Hlen Hr]. split; [|done]. simpl. by rewrite Hlen.
      * intros [|j] q' Hj Hq'; simpl in *; [lia|].
        rewrite (Hlate j q' ltac:(lia) Hq').
        apply lookup_insert_ne. intros ->. apply Hnin.
        by eapply list_elem_of_lookup_2.
      * intros q' Hq'. apply not_elem_of_cons in Hq' as [Hne Hq'].
        rewrite (Hframe q' Hq'). by apply lookup_insert_ne.
    + eexists _, _, _. split; [done|]. split; [|split].
      * intros [|k] ev Hk; simpl in Hk; [|by rewrite lookup_nil in Hk].
        injection Hk as <-. exists q, c, (inr err). done.
      * done.
      * done.
Qed.

(** C2: for every tier whose config enters the adjustment with a memory
    target, when the usage read back for that tier is at most the target
    the adjustment leaves the target (and the whole config) unchanged,
    and when it is strictly above the target the adjustment replaces the
    target with exactly the usage read. *)
Theorem retry_adjusts_to_usage order percentReserve (configs : Configs) d :
  NoDup order -> (forall q, q ∈ order -> is_Some (configs !! q)) ->
  exists configs' d' evs,
    retrySetMemoryReserve order configs percentReserve d
    = Some (configs', d', evs) /\
    forall k q c target name stats,
      order !! k = Some q -> configs !! q = Some c ->
      Memory (ResourceParameters c) = Some target ->
      evs !! k = Some (EvGetResourceStats name (inl stats)) ->
      let usage := Usage (MemoryStats_ stats) in
      name = Name c /\
      (usage <= target -> configs' !! q = Some c) /\
      (usage > target ->
       configs' !! q = Some (withMemory (Some usage) c) /\
       tierMemory configs' q = Some usage).
Proof.
  intros Hnd Hkeys.
  destruct (retrySetMemoryReserve_spec order percentReserve configs d
              Hnd Hkeys)
    as (configs' & d' & evs & Hrun & Hevs & _ & _).
  exists configs', d', evs. split; [done|].
  intros k q c target name stats Hq Hc Htarget Hk usage.
  destruct (Hevs k _ Hk) as (q' & c' & r & Hq' & Hc' & Hev & Hr).
  assert (q' = q) as -> by congruence.
  assert (c' = c) as -> by congruence.
  injection Hev as -> <-.
  unfold adjusted in Hr. rewrite Htarget in Hr. fold usage in Hr.
  split; [done|]. split.
  - intros Hle. destruct (Z.gtb_spec usage target); [lia|done].
  - intros Hgt. destruct (Z.gtb_spec usage target); [|lia].
    split; [done|]. unfold tierMemory. by rewrite Hr.
Qed.

(** *** The two rounds of writes *)

(** The first round writes every config, in the order of the loop, and
    reports whether every write succeeded. *)
Lemma updateAll_spec order (configs : Configs) :
  (forall q, q ∈ order -> is_Some (configs !! q)) ->
  forall updateSuccess d,
    exists ok d' evs,
      updateAll order configs updateSuccess d = Some (ok, d', evs) /\
      length evs = length order /\
      (forall k ev, evs !! k = Some ev ->
         exists q c r, order !! k = Some q /\ configs !! q = Some c /\
                       ev = EvUpdate c r) /\
      (ok = true <->
       updateSuccess = true /\
       forall c r, EvUpdate c r ∈ evs -> r = None).
Proof.
  induction order as [|q order IH]; intros Hkeys updateSuccess d; simpl.
  - exists updateSuccess, d, []. split; [done|]. split; [done|].
    split; [intros k ev Hk; by rewrite lookup_nil in Hk|].
    split; [intros ->; split; [done|]; intros c r Hin;
            by apply elem_of_nil in Hin | by intros [-> _]].
  - destruct (Hkeys q ltac:(by left)) as [c Hc]. rewrite Hc.
    unfold bind, call. destruct (Update c d) as [err d1].
    destruct (IH ltac:(intros q' Hq'; apply Hkeys; by right)
                (match err with Some _ => false | None => updateSuccess end)
                d1)
      as (ok & d' & evs & Hrun & Hlen & Hevs & Hok).
    rewrite Hrun. eexists _, _, _. split; [done|].
    split; [simpl; by rewrite Hlen|]. split.
    + intros [|k] ev Hk; simpl in Hk.
      * injection Hk as <-. by exists q, c, err.
      * destruct (Hevs k ev Hk) as (q' & c' & r & ? & ? & ?).
        by exists q', c', r.
    + rewrite Hok. split.
      * intros [Hs Hall]. destruct err as [e|]; [done|].
        split; [done|]. intros c' r Hin.
        apply elem_of_cons in Hin as [[= <- <-]|Hin]; [done|].
        by eapply Hall.
      * intros [-> Hall].
        rewrite (Hall c err ltac:(by left)).
        split; [done|]. intros c' r Hin. eapply Hall. by right.
Qed.

(** The second round writes the configs in the order of the loop up to
    and including the first write that fails, whose error it returns. *)
Lemma updateAgain_spec order (configs : Configs) :
  (forall q, q ∈ order -> is_Some (configs !! q)) ->
  forall d,
    exists res d' evs,
      updateAgain order configs d = Some (res, d', evs) /\
      (forall k ev, evs !! k = Some ev ->
         exists q c r, order !! k = Some q /\ configs !! q = Some c /\
                       ev = EvUpdate c r) /\
      match res with
      | None => length evs = length order /\
                forall c r, EvUpdate c r ∈ evs -> r = None
      | Some e => exists c, last evs = Some (EvUpdate c (Some e))
      end.
Proof.
  induction order as [|q order IH]; intros Hkeys d; simpl.
  - exists None, d, []. split; [done|].
    split; [intros k ev Hk; by rewrite lookup_nil in Hk|].
    split; [done|]. intros c r Hin. by apply elem_of_nil in Hin.
  - destruct (Hkeys q ltac:(by left)) as [c Hc]. rewrite Hc.
    unfold bind, call. destruct (Update c d) as [[e|] d1].
    + eexists _, _, _. split; [done|]. split.
      * intros [|k] ev Hk; simpl in Hk; [|by rewrite lookup_nil in Hk].
        injection Hk as <-. by exists q, c, (Some e).
      * by exists c.
    + destruct (IH ltac:(intros q' Hq'; apply Hkeys; by right) d1)
        as (res & d' & evs & Hrun & Hevs & Hres).
      rewrite Hrun. eexists _, _, _. split; [done|]. split.
      * intros [|k] ev Hk; simpl in Hk.
        -- injection Hk as <-. by exists q, c, None.
        -- destruct (Hevs k ev Hk) as (q' & c' & r & ? & ? & ?).
           by exists q', c', r.
      * destruct res as [e|].
        -- destruct Hres as [c' Hlast]. exists c'.
           simpl. destruct evs; [done|]. done.
        -- destruct Hres as [Hlen Hall]. split; [simpl; by rewrite Hlen|].
           intros c' r Hin.
           apply elem_of_cons in Hin as [[= <- <-]|Hin]; [done|].
           by eapply Hall.
Qed.

Lemma retryReserveResources_no_memory entries order :
  ResourceMemory ∉ entries.*1 ->
  forall configs d,
    retryReserveResources entries order configs d = ret configs d.
Proof.
  induction entries as [|[r p] entries IH]; intros Hnin configs d;
    simpl in *; [done|].
  apply not_elem_of_cons in Hnin as [Hne Hnin].
  case_decide as Hr; [congruence|]. by apply IH.
Qed.

Lemma retryReserveResources_memory entries order percentReserve :
  NoDup entries.*1 -> (ResourceMemory, percentReserve) ∈ entries ->
  forall configs d,
    retryReserveResources entries order configs d
    = retrySetMemoryReserve order configs percentReserve d.
Proof.
  induction entries as [|[r p] entries IH]; intros Hnd Hin configs d.
  - by apply elem_of_nil in Hin.
  - simpl in *. apply NoDup_cons in Hnd as [Hnin Hnd].
    case_decide as Hr.
    + subst r. assert (p = percentReserve) as ->.
      { apply elem_of_cons in Hin as [[= ->]|Hin]; [done|].
        exfalso. apply Hnin. apply list_elem_of_fmap.
        by exists (ResourceMemory, percentReserve). }
      unfold bind.
      destruct (retrySetMemoryReserve order configs percentReserve d)
        as [[[configs' d'] evs]|]; [|done].
      rewrite (retryReserveResources_no_memory _ _ Hnin). unfold ret.
      by rewrite app_nil_r.
    + apply IH; [done|].
      apply elem_of_cons in Hin as [[= ? ?]|Hin]; [congruence|done].
Qed.

Lemma retryReserveResources_qosReserved m order percentReserve configs d :
  qosReserved m !! ResourceMemory = Some percentReserve ->
  retryReserveResources (map_to_list (qosReserved m)) order configs d
  = retrySetMemoryReserve order configs percentReserve d.
Proof.
  intros Hp. apply retryReserveResources_memory.
  - apply NoDup_fst_map_to_list.
  - by apply elem_of_map_to_list.
Qed.

(** The adjustment neither adds nor removes a config. *)
Lemma retrySetMemoryReserve_keys order percentReserve :
  forall (configs configs' : Configs) d d' evs,
    retrySetMemoryReserve order configs percentReserve d
    = Some (configs', d', evs) ->
    forall q, is_Some (configs' !! q) <-> is_Some (configs !! q).
Proof.
  induction order as [|q0 order IH]; intros configs configs' d d' evs; simpl.
  - by intros [= <- <- <-].
  - destruct (configs !! q0) as [c|] eqn:Hc; [|by apply IH].
    intros Hrun. apply bind_inv in Hrun
      as ([stats|err] & d1 & evs1 & evs2 & _ & Hrun & _).
    + rewrite (adjusted_insert _ _ _ _ Hc) in Hrun.
      intros q. rewrite (IH _ _ _ _ _ Hrun q). rewrite lookup_insert.
      case_decide; [subst; by rewrite Hc|done].
    + by apply ret_inv in Hrun as (-> & _ & _).
Qed.

(** C10: when, in the second round, a stats read fails for a tier, the
    adjustment returns at once (the failed read is its last); that tier
    and every tier the loop had not reached yet keep the configs they
    came with; the error of the read is not returned, and the second
    round goes on to write again, for those tiers their original
    configs, its result being that of the writes alone. *)
Theorem stats_failure_keeps_targets m oR o2 (configs : Configs)
  percentReserve d :
  qosReserved m !! ResourceMemory = Some percentReserve ->
  range_order configs oR -> range_order configs o2 ->
  exists configs' dR res d' evsR evsU,
    retrySetMemoryReserve oR configs percentReserve d
    = Some (configs', dR, evsR) /\
    secondRound m oR o2 configs d = Some (res, d', evsR ++ evsU) /\
    Forall is_stats_read evsR /\ Forall is_update evsU /\
    match res with
    | None => length evsU = length o2 /\
              forall c r, EvUpdate c r ∈ evsU -> r = None
    | Some e => exists c, last evsU = Some (EvUpdate c (Some e))
    end /\
    forall k name err,
      evsR !! k = Some (EvGetResourceStats name (inr err)) ->
      length evsR = S k /\
      (forall j q, (k <= j)%nat -> oR !! j = Some q ->
                   configs' !! q = configs !! q) /\
      (forall j q i c r, (k <= j)%nat -> oR !! j = Some q ->
         o2 !! i = Some q -> evsU !! i = Some (EvUpdate c r) ->
         configs !! q = Some c).
Proof.
  intros HP [HndR HkR] [Hnd2 Hk2].
  destruct (retrySetMemoryReserve_spec oR percentReserve configs d HndR
              ltac:(intros q Hq; by apply HkR))
    as (configs' & dR & evsR & Hrun & Hevs & Hlate & Hframe).
  pose proof (retrySetMemoryReserve_keys _ _ _ _ _ _ _ Hrun) as Hkeys.
  destruct (updateAgain_spec o2 configs'
              ltac:(intros q Hq; apply Hkeys; by apply Hk2) dR)
    as (res & d' & evsU & Hrun2 & Hevs2 & Hres).
  exists configs', dR, res, d', evsR, evsU.
  split; [done|]. split.
  { unfold secondRound, bind.
    rewrite (retryReserveResources_qosReserved _ _ _ _ _ HP).
    by rewrite Hrun, Hrun2. }
  split.
  { apply Forall_lookup. intros k ev Hk.
    by destruct (Hevs k ev Hk) as (? & ? & ? & _ & _ & -> & _). }
  split.
  { apply Forall_lookup. intros k ev Hk.
    by destruct (Hevs2 k ev Hk) as (? & ? & ? & _ & _ & ->). }
  split; [done|].
  intros k name err Hk.
  destruct (Hevs k _ Hk) as (qk & ck & r & Hqk & Hck & Hev & Hr).
  injection Hev as -> <-. destruct Hr as [Hlen Hkeep].
  assert (Hkept : forall j q, (k <= j)%nat -> oR !! j = Some q ->
                              configs' !! q = configs !! q).
  { intros j q Hj Hq. destruct (decide (j = k)) as [->|Hne].
    - assert (q = qk) as -> by congruence. by rewrite Hkeep, Hck.
    - apply (Hlate j); [lia|done]. }
  split; [done|]. split; [done|].
  intros j q i c r Hj Hq Hi Hev.
  destruct (Hevs2 i _ Hev) as (q' & c' & r' & Hq' & Hc' & Heq).
  injection Heq as <- <-.
  assert (q' = q) as -> by congruence.
  by rewrite <- (Hkept j q Hj Hq).
Qed.

(** *** One pass, step by step *)

Lemma newConfigs_lookup m q :
  newConfigs m !! q
  = match q with
    | PodQOSGuaranteed => None
    | PodQOSBurstable =>
        Some {| Name := Burstable (qosContainersInfo m);
                ResourceParameters :=
                  {| Memory := None; CpuShares := None |} |}
    | PodQOSBestEffort =>
        Some {| Name := BestEffort (qosContainersInfo m);
                ResourceParameters :=
                  {| Memory := None; CpuShares := None |} |}
    end.
Proof. by destruct q. Qed.

Lemma newConfigs_keys m q :
  is_Some (newConfigs m !! q) <-> q = PodQOSBurstable \/ q = PodQOSBestEffort.
Proof.
  rewrite newConfigs_lookup. destruct q.
  - split; [by intros [? ?]|by intros [?|?]].
  - split; [by left|by eexists].
  - split; [by right|by eexists].
Qed.

Lemma newConfigs_memory_nil m : memory_nil (newConfigs m).
Proof.
  intros q c. rewrite newConfigs_lookup. destruct q; [done|..];
    by intros [= <-].
Qed.

Lemma memory_nil_withCpuShares (configs : Configs) q c v :
  memory_nil configs -> configs !! q = Some c ->
  memory_nil (<[q := withCpuShares v c]> configs).
Proof.
  intros Hnil Hc q' c'. rewrite lookup_insert. case_decide.
  - intros [= <-]. simpl. by eapply Hnil.
  - apply Hnil.
Qed.

(** With both accessors in place and both tiers in the map,
    [setMemoryReserve] does not panic; it calls nothing but the
    accessors, keeps the keys of the map, and leaves the map as it is
    unless it read a nonzero allocatable memory. *)
Lemma setMemoryReserve_total m (configs : Configs) percentReserve f g d :
  activePods m = Some f -> getNodeAllocatable m = Some g ->
  is_Some (configs !! PodQOSBurstable) ->
  is_Some (configs !! PodQOSBestEffort) ->
  exists configs' d' evs,
    setMemoryReserve m configs percentReserve d = Some (configs', d', evs) /\
    Forall is_accessor_read evs /\
    (forall q, is_Some (configs' !! q) <-> is_Some (configs !! q)) /\
    ((forall resources, EvNodeAllocatable resources ∈ evs ->
                        memory_unusable resources) ->
     configs' = configs).
Proof.
  intros Hf Hg [cb Hcb] [ce Hce]. unfold setMemoryReserve.
  destruct (f d) as [pods d1] eqn:Hfd.
  rewrite (bind_run _ _ _ _ _ _ (call_activePods_run _ _ _ _ _ Hf Hfd)).
  destruct (sumMemoryRequests pods _) as [qmr|].
  2:{ eexists _, _, _. split; [done|]. split; [by repeat constructor|].
      split; [done|done]. }
  destruct (g d1) as [resources d2] eqn:Hgd.
  rewrite (bind_run _ _ _ _ _ _
             (call_getNodeAllocatable_run _ _ _ _ _ Hg Hgd)).
  destruct (resources !! ResourceMemory) as [allocatableResource|] eqn:Hmem.
  2:{ eexists _, _, _. split; [done|]. split; [by repeat constructor|].
      split; [done|done]. }
  destruct (Z.eqb_spec (Value allocatableResource) 0) as [Hz|Hnz].
  { eexists _, _, _. split; [done|]. split; [by repeat constructor|].
    split; [done|done]. }
  unfold setMemory, bind, ret. rewrite Hcb.
  rewrite lookup_insert_ne by done. rewrite Hce.
  eexists _, _, _. split; [done|]. split; [by repeat constructor|]. split.
  - intros q. rewrite !lookup_insert. repeat case_decide; subst;
      rewrite ?Hcb, ?Hce; split; by eauto.
  - intros Hun. exfalso. apply Hnz.
    apply (Hun resources); [|done]. simpl. right. by left.
Qed.

(** When the allocatable memory it reads is absent or zero,
    [setMemoryReserve] returns with the map unchanged, whatever the map. *)
Lemma setMemoryReserve_unusable m (configs : Configs) percentReserve
  f g d pods d1 resources d2 :
  activePods m = Some f -> f d = (pods, d1) ->
  getNodeAllocatable m = Some g -> g d1 = (resources, d2) ->
  memory_unusable resources ->
  exists d' evs,
    setMemoryReserve m configs percentReserve d = Some (configs, d', evs) /\
    Forall is_accessor_read evs.
Proof.
  intros Hf Hfd Hg Hgd Hun. unfold setMemoryReserve.
  rewrite (bind_run _ _ _ _ _ _ (call_activePods_run _ _ _ _ _ Hf Hfd)).
  destruct (sumMemoryRequests pods _) as [qmr|].
  2:{ eexists _, _. split; [done|]. by repeat constructor. }
  rewrite (bind_run _ _ _ _ _ _
             (call_getNodeAllocatable_run _ _ _ _ _ Hg Hgd)).
  destruct (resources !! ResourceMemory) as [allocatableResource|] eqn:Hmem.
  2:{ eexists _, _. split; [done|]. by repeat constructor. }
  rewrite (Hun _ Hmem). simpl.
  eexists _, _. split; [done|]. by repeat constructor.
Qed.

Lemma reserveResources_total m (configs : Configs) f g d :
  activePods m = Some f -> getNodeAllocatable m = Some g ->
  is_Some (configs !! PodQOSBurstable) ->
  is_Some (configs !! PodQOSBestEffort) ->
  exists configs' d' evs,
    reserveResources m (map_to_list (qosReserved m)) configs d
    = Some (configs', d', evs) /\
    Forall is_accessor_read evs /\
    (forall q, is_Some (configs' !! q) <-> is_Some (configs !! q)) /\
    ((forall resources, EvNodeAllocatable resources ∈ evs ->
                        memory_unusable resources) ->
     configs' = configs).
Proof.
  intros Hf Hg Hcb Hce.
  destruct (qosReserved m !! ResourceMemory) as [percentReserve|] eqn:HP.
  - rewrite (reserveResources_qosReserved _ _ _ _ HP).
    by eapply setMemoryReserve_total.
  - rewrite reserveResources_no_memory.
    + exists configs, d, []. split; [done|]. split; [done|]. done.
    + intros Hin. apply list_elem_of_fmap in Hin as ([r p] & Hr & Hin).
      simpl in Hr. subst r. apply elem_of_map_to_list in Hin. congruence.
Qed.

(** The adjustment never panics. *)
Lemma retrySetMemoryReserve_total order percentReserve :
  forall (configs : Configs) d,
    is_Some (retrySetMemoryReserve order configs percentReserve d).
Proof.
  induction order as [|q order IH]; intros configs d; simpl; [by eexists|].
  destruct (configs !! q) as [c|]; [|by apply IH].
  unfold bind, call.
  destruct (GetResourceStats (Name c) d) as [[stats|err] d1];
    [|by eexists].
  match goal with |- context [retrySetMemoryReserve order ?x _ d1] =>
    destruct (IH x d1) as [[[cfg3 d2] evs] ->] end.
  by eexists.
Qed.

(** With no memory target in the map the adjustment changes nothing. *)
Lemma retrySetMemoryReserve_memory_nil order percentReserve :
  forall (configs configs' : Configs) d d' evs,
    memory_nil configs ->
    retrySetMemoryReserve order configs percentReserve d
    = Some (configs', d', evs) ->
    configs' = configs /\ Forall is_stats_read evs.
Proof.
  induction order as [|q order IH]; intros configs configs' d d' evs Hnil;
    simpl.
  - by intros [= <- <- <-].
  - destruct (configs !! q) as [c|] eqn:Hc; [|by apply IH].
    intros Hrun. apply bind_inv in Hrun
      as (r & d1 & evs1 & evs2 & Hcall & Hrun & ->).
    unfold call in Hcall. destruct (GetResourceStats (Name c) d) as [r' d1'].
    injection Hcall as -> -> <-. destruct r as [stats|err].
    + rewrite (Hnil _ _ Hc) in Hrun.
      destruct (IH _ _ _ _ _ Hnil Hrun) as [-> Hall].
      split; [done|]. by constructor.
    + apply ret_inv in Hrun as (-> & _ & ->). split; [done|].
      by repeat constructor.
Qed.

Lemma sumBurstableCPU_fails pods :
  (exists pod, pod ∈ pods /\ GetPodQOS pod = PodQOSBurstable /\
               ~ determinable pod) ->
  forall acc, exists err, sumBurstableCPU pods acc = inr err.
Proof.
  induction pods as [|pod pods IH]; intros (pod' & Hin & Hq & Hnd) acc.
  - by apply elem_of_nil in Hin.
  - simpl. apply elem_of_cons in Hin as [->|Hin].
    + case_decide; [done|].
      destruct (PodRequestsAndLimits pod) as [[req lim]|err] eqn:Hreq.
      * exfalso. apply Hnd. by exists req, lim.
      * by exists err.
    + assert (Hex : exists pod, pod ∈ pods /\
                GetPodQOS pod = PodQOSBurstable /\ ~ determinable pod)
        by (by exists pod').
      case_decide; [by apply IH|].
      destruct (PodRequestsAndLimits pod) as [[req lim]|err];
        [|by exists err].
      destruct (req !! ResourceCPU); by apply IH.
Qed.

(** C4, amended: in a pass in which the requests of some Burstable pod
    cannot be determined during the CPU-share computation, the whole
    pass is aborted: [UpdateCgroups] returns that pod error at once,
    having made no call but the one read of the active pods; the memory
    reservation does not run and no cgroup is written. *)
Theorem cpu_failure_aborts_pass m o1 oR o2 f d pods d1 :
  activePods m = Some f -> f d = (pods, d1) ->
  (exists pod, pod ∈ pods /\ GetPodQOS pod = PodQOSBurstable /\
               ~ determinable pod) ->
  exists err,
    (exists pod, pod ∈ pods /\ GetPodQOS pod = PodQOSBurstable /\
                 PodRequestsAndLimits pod = inr err) /\
    UpdateCgroups m o1 oR o2 d = Some (Some err, d1, [EvActivePods pods]) /\
    ~ cpu_failure_spares_memory m o1 oR o2 d.
Proof.
  intros Hf Hfd Hex.
  destruct (sumBurstableCPU_fails pods Hex 0) as [err Herr].
  exists err. split; [by eapply sumBurstableCPU_error|].
  assert (Hrun : UpdateCgroups m o1 oR o2 d
                 = Some (Some err, d1, [EvActivePods pods])).
  { unfold UpdateCgroups, setCPUCgroupConfig.
    unfold bind at 1. unfold bind at 1.
    rewrite (call_activePods_run _ _ _ _ _ Hf Hfd). by rewrite Herr. }
  split; [done|].
  intros (res & d' & evs & Hrun' & Hran). rewrite Hrun in Hrun'.
  injection Hrun' as <- <- <-. unfold memory_reservation_ran in Hran.
  simpl in Hran. lia.
Qed.

(** The pass when the CPU-share computation succeeds: the configs after
    it, the memory reservation, the first round of writes and, when one
    of them failed, the second round. *)
Lemma UpdateCgroups_run m o1 oR o2 f g d pods d1 S :
  activePods m = Some f -> getNodeAllocatable m = Some g ->
  f d = (pods, d1) -> sumBurstableCPU pods 0 = inl S ->
  range_order (newConfigs m) o1 -> range_order (newConfigs m) o2 ->
  exists cfg1 cfg2 d2 evs2 ok d3 evs3 res d' evs4,
    setCPUCgroupConfig m (newConfigs m) d
    = Some ((None, cfg1), d1, [EvActivePods pods]) /\
    memory_nil cfg1 /\
    reserveResources m (map_to_list (qosReserved m)) cfg1 d1
    = Some (cfg2, d2, evs2) /\
    Forall is_accessor_read evs2 /\
    ((forall resources, EvNodeAllocatable resources ∈ evs2 ->
                        memory_unusable resources) -> cfg2 = cfg1) /\
    (forall q, is_Some (cfg2 !! q) <-> is_Some (newConfigs m !! q)) /\
    updateAll o1 cfg2 true d2 = Some (ok, d3, evs3) /\
    (forall k ev, evs3 !! k = Some ev ->
       exists q c r, o1 !! k = Some q /\ cfg2 !! q = Some c /\
                     ev = EvUpdate c r) /\
    (ok = true <-> forall c r, EvUpdate c r ∈ evs3 -> r = None) /\
    (if ok then res = None /\ d' = d3 /\ evs4 = []
     else secondRound m oR o2 cfg2 d3 = Some (res, d', evs4)) /\
    UpdateCgroups m o1 oR o2 d
    = Some (res, d', EvActivePods pods :: evs2 ++ evs3 ++ evs4).
Proof.
  intros Hf Hg Hfd HS [Hnd1 Hk1] [Hnd2 Hk2].
  set (cfg0 := <[PodQOSBestEffort :=
                   withCpuShares (Some MinShares)
                     {| Name := BestEffort (qosContainersInfo m);
                        ResourceParameters :=
                          {| Memory := None; CpuShares := None |} |}]>
                 (newConfigs m)).
  set (cfg1 := <[PodQOSBurstable :=
                   withCpuShares
                     (Some (if MilliCPUToShares S <? MinShares
                            then MinShares else MilliCPUToShares S))
                     {| Name := Burstable (qosContainersInfo m);
                        ResourceParameters :=
                          {| Memory := None; CpuShares := None |} |}]>
                 cfg0).
  assert (Hcpu : setCPUCgroupConfig m (newConfigs m) d
                 = Some ((None, cfg1), d1, [EvActivePods pods])).
  { unfold setCPUCgroupConfig.
    rewrite (bind_run _ _ _ _ _ _ (call_activePods_run _ _ _ _ _ Hf Hfd)).
    rewrite HS. unfold setCpuShares, bind, ret.
    rewrite newConfigs_lookup. fold cfg0.
    assert (cfg0 !! PodQOSBurstable
            = Some {| Name := Burstable (qosContainersInfo m);
                      ResourceParameters :=
                        {| Memory := None; CpuShares := None |} |}) as ->.
    { unfold cfg0. rewrite lookup_insert_ne by done.
      by rewrite newConfigs_lookup. }
    done. }
  assert (Hkeys1 : forall q, is_Some (cfg1 !! q)
                             <-> is_Some (newConfigs m !! q)).
  { intros q. unfold cfg1, cfg0. rewrite !lookup_insert.
    rewrite newConfigs_lookup. destruct q; repeat case_decide; try done;
      split; by eauto. }
  assert (Hnil1 : memory_nil cfg1).
  { unfold cfg1, cfg0.
    apply memory_nil_withCpuShares;
      [apply memory_nil_withCpuShares;
         [apply newConfigs_memory_nil | by rewrite newConfigs_lookup]|].
    rewrite lookup_insert_ne by done. by rewrite newConfigs_lookup. }
  destruct (reserveResources_total m cfg1 f g d1 Hf Hg)
    as (cfg2 & d2 & evs2 & Hres & Hacc & Hkeys2 & Hsame).
  { apply Hkeys1, newConfigs_keys. by left. }
  { apply Hkeys1, newConfigs_keys. by right. }
  assert (Hkeys : forall q, is_Some (cfg2 !! q)
                            <-> is_Some (newConfigs m !! q)).
  { intros q. by rewrite Hkeys2, Hkeys1. }
  destruct (updateAll_spec o1 cfg2
              ltac:(intros q Hq; by apply Hkeys, Hk1) true d2)
    as (ok & d3 & evs3 & Hupd & _ & Hevs3 & Hok).
  assert (Hok' : ok = true <-> forall c r, EvUpdate c r ∈ evs3 -> r = None).
  { rewrite Hok. split; [by intros [_ ?]|done]. }
  destruct ok.
  - exists cfg1, cfg2, d2, evs2, true, d3, evs3, None, d3, [].
    repeat (split; [done|]).
    unfold UpdateCgroups. unfold bind at 1. rewrite Hcpu.
    unfold bind at 1. rewrite Hres. unfold bind at 1. rewrite Hupd.
    unfold ret. simpl. by rewrite !app_nil_r.
  - destruct (secondRound m oR o2 cfg2 d3) as [[[res d'] evs4]|] eqn:H2.
    + exists cfg1, cfg2, d2, evs2, false, d3, evs3, res, d', evs4.
      repeat (split; [done|]).
      unfold UpdateCgroups. unfold bind at 1. rewrite Hcpu.
      unfold bind at 1. rewrite Hres. unfold bind at 1. rewrite Hupd.
      by rewrite H2.
    + exfalso. unfold secondRound, bind in H2.
      destruct (qosReserved m !! ResourceMemory) as [P|] eqn:HP.
      * rewrite (retryReserveResources_qosReserved _ _ _ _ _ HP) in H2.
        destruct (retrySetMemoryReserve oR cfg2 P d3)
          as [[[cfg3 d4] evsR]|] eqn:HR.
        -- pose proof (retrySetMemoryReserve_keys _ _ _ _ _ _ _ HR) as Hk3.
           destruct (updateAgain_spec o2 cfg3
                       ltac:(intros q Hq; by apply Hk3, Hkeys, Hk2) d4)
             as (res & d' & evsU & Hrun & _).
           by rewrite Hrun in H2.
        -- destruct (retrySetMemoryReserve_total oR P cfg2 d3) as [x Hx].
           congruence.
      * rewrite retryReserveResources_no_memory in H2.
        -- unfold ret in H2.
           destruct (updateAgain_spec o2 cfg2
                       ltac:(intros q Hq; by apply Hkeys, Hk2) d3)
             as (res & d' & evsU & Hrun & _).
           by rewrite Hrun in H2.
        -- intros Hin. apply list_elem_of_fmap in Hin as ([r p] & Hr & Hin).
           simpl in Hr. subst r. apply elem_of_map_to_list in Hin.
           congruence.
Qed.

Lemma UpdateCgroups_cpu_failure m o1 oR o2 f d pods d1 err :
  activePods m = Some f -> f d = (pods, d1) ->
  sumBurstableCPU pods 0 = inr err ->
  UpdateCgroups m o1 oR o2 d = Some (Some err, d1, [EvActivePods pods]).
Proof.
  intros Hf Hfd Herr. unfold UpdateCgroups, setCPUCgroupConfig.
  unfold bind at 1. unfold bind at 1.
  rewrite (call_activePods_run _ _ _ _ _ Hf Hfd). by rewrite Herr.
Qed.

Lemma retrySetMemoryReserve_events order percentReserve :
  forall (configs configs' : Configs) d d' evs,
    retrySetMemoryReserve order configs percentReserve d
    = Some (configs', d', evs) ->
    Forall is_stats_read evs.
Proof.
  induction order as [|q order IH]; intros configs configs' d d' evs; simpl.
  - by intros [= <- <- <-].
  - destruct (configs !! q) as [c|] eqn:Hc; [|by apply IH].
    intros Hrun. apply bind_inv in Hrun
      as (r & d1 & evs1 & evs2 & Hcall & Hrun & ->).
    unfold call in Hcall. destruct (GetResourceStats (Name c) d) as [r' d1'].
    injection Hcall as -> -> <-. constructor; [done|].
    destruct r as [stats|err].
    + by eapply IH.
    + by apply ret_inv in Hrun as (_ & _ & ->).
Qed.

(** The second round, taken apart. *)
Lemma secondRound_inv m oR o2 (configs : Configs) d res d' evs :
  secondRound m oR o2 configs d = Some (res, d', evs) ->
  exists configs' dR evsR evsU,
    evs = evsR ++ evsU /\
    Forall is_stats_read evsR /\
    (forall q, is_Some (configs' !! q) <-> is_Some (configs !! q)) /\
    (memory_nil configs -> configs' = configs) /\
    updateAgain o2 configs' dR = Some (res, d', evsU).
Proof.
  unfold secondRound. intros Hrun.
  apply bind_inv in Hrun as (configs' & dR & evsR & evsU & HR & HU & ->).
  exists configs', dR, evsR, evsU. split; [done|].
  destruct (qosReserved m !! ResourceMemory) as [P|] eqn:HP.
  - rewrite (retryReserveResources_qosReserved _ _ _ _ _ HP) in HR.
    split; [by eapply retrySetMemoryReserve_events|].
    split; [by eapply retrySetMemoryReserve_keys|].
    split; [|done]. intros Hnil.
    by destruct (retrySetMemoryReserve_memory_nil _ _ _ _ _ _ _ Hnil HR).
  - rewrite retryReserveResources_no_memory in HR.
    + by apply ret_inv in HR as (-> & -> & ->).
    + intros Hin. apply list_elem_of_fmap in Hin as ([r p] & Hr & Hin).
      simpl in Hr. subst r. apply elem_of_map_to_list in Hin. congruence.
Qed.

(** C5: in a pass in which node-allocatable memory is absent from the
    resource list or zero, the memory reservation returns with every
    config as it found it, so that each tier's memory target remains
    nil: every write of the pass carries a nil memory target.  The
    condition is no error of the pass: an error the pass returns is the
    pod error of the CPU-share computation or the error of its last,
    failed write. *)
Theorem no_allocatable_no_limits m f g o1 oR o2 d :
  activePods m = Some f -> getNodeAllocatable m = Some g ->
  range_order (newConfigs m) o1 -> range_order (newConfigs m) o2 ->
  (forall (configs : Configs) percentReserve d0,
     memory_unusable (g (f d0).2).1 ->
     exists d0' evs0,
       setMemoryReserve m configs percentReserve d0
       = Some (configs, d0', evs0) /\
       Forall is_accessor_read evs0) /\
  exists res d' evs,
    UpdateCgroups m o1 oR o2 d = Some (res, d', evs) /\
    ((forall resources, EvNodeAllocatable resources ∈ evs ->
                        memory_unusable resources) ->
     (forall c r, EvUpdate c r ∈ evs ->
                  Memory (ResourceParameters c) = None) /\
     (forall e, res = Some e ->
        (exists pods, evs = [EvActivePods pods] /\
                      sumBurstableCPU pods 0 = inr e) \/
        (exists c, last evs = Some (EvUpdate c (Some e))))).
Proof.
  intros Hf Hg Ho1 Ho2. split.
  { intros configs percentReserve d0 Hun.
    destruct (f d0) as [pods0 d1] eqn:Hfd0.
    destruct (g d1) as [resources d2] eqn:Hgd1. simpl in Hun.
    rewrite Hgd1 in Hun. simpl in Hun.
    by eapply setMemoryReserve_unusable. }
  destruct (f d) as [pods d1] eqn:Hfd.
  destruct (sumBurstableCPU pods 0) as [S|err] eqn:HS.
  2:{ eexists _, _, _.
      split; [by eapply UpdateCgroups_cpu_failure|]. intros _. split.
      - intros c r Hin. apply list_elem_of_singleton in Hin. done.
      - intros e [= <-]. left. by exists pods. }
  destruct (UpdateCgroups_run m o1 oR o2 f g d pods d1 S Hf Hg Hfd HS Ho1 Ho2)
    as (cfg1 & cfg2 & d2 & evs2 & ok & d3 & evs3 & res & d' & evs4
        & _ & Hnil1 & _ & Hacc & Hsame & Hkeys & _ & Hevs3 & _ & Hsecond
        & Hrun).
  eexists _, _, _. split; [exact Hrun|]. intros Hun.
  assert (cfg2 = cfg1) as ->.
  { apply Hsame. intros resources Hin. apply Hun.
    right. apply elem_of_app. by left. }
  assert (H3 : forall c r, EvUpdate c r ∈ evs3 ->
                           Memory (ResourceParameters c) = None).
  { intros c r Hin. apply list_elem_of_lookup in Hin as [k Hk].
    destruct (Hevs3 k _ Hk) as (q & c' & r' & _ & Hc' & [= -> ->]).
    by eapply Hnil1. }
  destruct ok.
  - destruct Hsecond as (-> & -> & ->). split; [|done].
    intros c r Hin. apply elem_of_cons in Hin as [?|Hin]; [done|].
    rewrite app_nil_r in Hin. apply elem_of_app in Hin as [Hin|Hin].
    + rewrite Forall_forall in Hacc. by apply Hacc in Hin.
    + by eapply H3.
  - apply secondRound_inv in Hsecond
      as (cfg3 & dR & evsR & evsU & -> & Hstats & Hkeys3 & Hsame3 & HU).
    rewrite (Hsame3 Hnil1) in HU.
    destruct Ho2 as [_ Hk2].
    destruct (updateAgain_spec o2 cfg1
                ltac:(intros q Hq; by apply Hkeys, Hk2) dR)
      as (res' & d'' & evsU' & HU' & HevsU & Hres).
    rewrite HU in HU'. injection HU' as <- <- <-. split.
    + intros c r Hin. apply elem_of_cons in Hin as [?|Hin]; [done|].
      rewrite !elem_of_app in Hin. destruct Hin as [Hin|[Hin|[Hin|Hin]]].
      * rewrite Forall_forall in Hacc. by apply Hacc in Hin.
      * by eapply H3.
      * rewrite Forall_forall in Hstats. by apply Hstats in Hin.
      * apply list_elem_of_lookup in Hin as [k Hk].
        destruct (HevsU k _ Hk) as (q & c' & r' & _ & Hc' & [= -> ->]).
        by eapply Hnil1.
    + intros e ->. right. destruct Hres as [c Hlast]. exists c.
      rewrite last_cons. rewrite !last_app, Hlast. done.
Qed.

(** *** Bootstrap *)



Lemma range_order_two (configs : Configs) :
  (forall q, is_Some (configs !! q)
             <-> q = PodQOSBurstable \/ q = PodQOSBestEffort) ->
  range_order configs [PodQOSBurstable; PodQOSBestEffort] /\
  range_order configs [PodQOSBestEffort; PodQOSBurstable].
Proof.
  intros Hkeys. split; split.
  - apply NoDup_cons. split; [by rewrite list_elem_of_singleton|].
    apply NoDup_singleton.
  - intros q. by rewrite Hkeys, elem_of_cons, list_elem_of_singleton.
  - apply NoDup_cons. split; [by rewrite list_elem_of_singleton|].
    apply NoDup_singleton.
  - intros q. rewrite Hkeys, elem_of_cons, list_elem_of_singleton.
    by split; intros [?|?]; [right|left|right|left].
Qed.

Lemma range_order_newConfigs m :
  range_order (newConfigs m) [PodQOSBurstable; PodQOSBestEffort] /\
  range_order (newConfigs m) [PodQOSBestEffort; PodQOSBurstable].
Proof. apply range_order_two. intros q. apply newConfigs_keys. Qed.


(** *** Further properties: the loops over the pods *)

Lemma sumBurstableCPU_filter pods :
  forall acc,
    sumBurstableCPU pods acc
    = sumBurstableCPU (List.filter isBurstable pods) acc.
Proof.
  induction pods as [|pod pods IH]; intros acc; [done|].
  cbn [List.filter sumBurstableCPU]. unfold isBurstable at 1.
  case_decide as Hq.
  - rewrite bool_decide_false by done. apply IH.
  - rewrite bool_decide_true by done. cbn [sumBurstableCPU].
    case_decide; [done|].
    destruct (PodRequestsAndLimits pod) as [[req lim]|err]; [|done].
    destruct (req !! ResourceCPU); apply IH.
Qed.

Lemma sumMemoryRequests_filter pods :
  forall qmr,
    sumMemoryRequests pods qmr
    = sumMemoryRequests (List.filter notBestEffort pods) qmr.
Proof.
  induction pods as [|pod pods IH]; intros qmr; [done|].
  cbn [List.filter sumMemoryRequests]. unfold notBestEffort at 1.
  case_decide as Hq.
  - rewrite bool_decide_true by done. cbn [negb]. apply IH.
  - rewrite bool_decide_false by done. cbn [negb sumMemoryRequests].
    case_decide; [done|].
    destruct (PodRequestsAndLimits pod) as [[req lim]|err]; [|done].
    apply IH.
Qed.

(** X1: the CPU-share computation looks at the Burstable pods only: two
    populations with the same Burstable pods, in the same order, give
    the same result (the same error or the same configs), whatever
    their other pods are, determinable or not. *)
Theorem cpu_shares_only_burstable m1 m2 (configs : Configs) f1 f2 d
  pods1 pods2 d1 d2 :
  activePods m1 = Some f1 -> f1 d = (pods1, d1) ->
  activePods m2 = Some f2 -> f2 d = (pods2, d2) ->
  List.filter isBurstable pods1 = List.filter isBurstable pods2 ->
  exists r,
    setCPUCgroupConfig m1 configs d
    = option_map (fun r => (r, d1, [EvActivePods pods1])) r /\
    setCPUCgroupConfig m2 configs d
    = option_map (fun r => (r, d2, [EvActivePods pods2])) r.
Proof.
  intros Hf1 Hd1 Hf2 Hd2 Hsame. unfold setCPUCgroupConfig.
  rewrite (bind_run _ _ _ _ _ _ (call_activePods_run _ _ _ _ _ Hf1 Hd1)).
  rewrite (bind_run _ _ _ _ _ _ (call_activePods_run _ _ _ _ _ Hf2 Hd2)).
  rewrite (sumBurstableCPU_filter pods1), (sumBurstableCPU_filter pods2).
  rewrite Hsame.
  destruct (sumBurstableCPU (List.filter isBurstable pods2) 0) as [S|err].
  - unfold setCpuShares, bind, ret.
    destruct (configs !! PodQOSBestEffort) as [ce|];
      [|by exists None].
    match goal with |- context [?c !! PodQOSBurstable] =>
      destruct (c !! PodQOSBurstable) as [cb|] end;
      [|by exists None].
    by eexists (Some _).
  - by eexists (Some _).
Qed.


Lemma sumMemoryRequests_fails pods :
  (exists pod, pod ∈ pods /\ GetPodQOS pod <> PodQOSBestEffort /\
               ~ determinable pod) ->
  forall qmr, sumMemoryRequests pods qmr = None.
Proof.
  induction pods as [|pod pods IH]; intros (pod' & Hin & Hq & Hnd) qmr.
  - by apply elem_of_nil in Hin.
  - cbn [sumMemoryRequests]. apply elem_of_cons in Hin as [->|Hin].
    + case_decide; [done|].
      destruct (PodRequestsAndLimits pod) as [[req lim]|err] eqn:Hreq;
        [|done].
      exfalso. apply Hnd. by exists req, lim.
    + assert (Hex : exists pod, pod ∈ pods /\
                GetPodQOS pod <> PodQOSBestEffort /\ ~ determinable pod)
        by (by exists pod').
      case_decide; [by apply IH|].
      destruct (PodRequestsAndLimits pod) as [[req lim]|err]; [|done].
      by apply IH.
Qed.

(** X2: when the requests of some active pod that is not BestEffort
    cannot be determined, the memory reservation gives up after reading
    the pods: it does not read the node-allocatable resources, sets no
    limit and leaves every config as it was, whatever the configs are. *)
Theorem memory_reserve_undeterminable m (configs : Configs) percentReserve
  f d pods d1 :
  activePods m = Some f -> f d = (pods, d1) ->
  (exists pod, pod ∈ pods /\ GetPodQOS pod <> PodQOSBestEffort /\
               ~ determinable pod) ->
  setMemoryReserve m configs percentReserve d
  = Some (configs, d1, [EvActivePods pods]).
Proof.
  intros Hf Hfd Hex. unfold setMemoryReserve.
  rewrite (bind_run _ _ _ _ _ _ (call_activePods_run _ _ _ _ _ Hf Hfd)).
  by rewrite (sumMemoryRequests_fails pods Hex).
Qed.

(** *** Further properties: the adjustment *)

Lemma raised_refl c : raised c c.
Proof.
  split; [done|]. split; [done|].
  destruct (Memory (ResourceParameters c)) as [limit|]; [|done].
  exists limit. split; [done|lia].
Qed.

Lemma raised_trans c1 c2 c3 : raised c1 c2 -> raised c2 c3 -> raised c1 c3.
Proof.
  intros (Hn1 & Hc1 & Hm1) (Hn2 & Hc2 & Hm2).
  split; [congruence|]. split; [congruence|].
  destruct (Memory (ResourceParameters c1)) as [l1|].
  - destruct Hm1 as (l2 & Hl2 & Hle). rewrite Hl2 in Hm2.
    destruct Hm2 as (l3 & Hl3 & Hle'). exists l3. split; [done|lia].
  - by rewrite Hm1 in Hm2.
Qed.

Lemma raised_adjusted usage c : raised c (adjusted usage c).
Proof.
  unfold adjusted.
  destruct (Memory (ResourceParameters c)) as [limit|] eqn:Hm;
    [|apply raised_refl].
  destruct (Z.gtb_spec usage limit); [|apply raised_refl].
  split; [done|]. split; [done|]. rewrite Hm. exists usage.
  split; [done|lia].
Qed.

(** X3: whatever the driver answers and in whatever order the tiers
    come, the adjustment keeps the set of tiers, every name and every
    CPU-share target; it never sets a memory target that was nil and
    never lowers one that was set. *)
Theorem retry_only_raises order percentReserve :
  forall (configs configs' : Configs) d d' evs,
    retrySetMemoryReserve order configs percentReserve d
    = Some (configs', d', evs) ->
    forall q,
      match configs !! q, configs' !! q with
      | Some c, Some c' => raised c c'
      | None, None => True
      | _, _ => False
      end.
Proof.
  induction order as [|q0 order IH]; intros configs configs' d d' evs;
    cbn [retrySetMemoryReserve].
  - intros [= <- <- <-] q. destruct (configs !! q); [apply raised_refl|done].
  - destruct (configs !! q0) as [c0|] eqn:Hc0; [|by apply IH].
    intros Hrun. apply bind_inv in Hrun
      as ([stats|err] & d1 & evs1 & evs2 & _ & Hrun & _).
    + rewrite (adjusted_insert _ _ _ _ Hc0) in Hrun.
      intros q. specialize (IH _ _ _ _ _ Hrun q).
      rewrite lookup_insert in IH. case_decide as Hq.
      * subst q0. rewrite Hc0.
        destruct (configs' !! q) as [c'|]; [|done].
        eapply raised_trans; [apply raised_adjusted|exact IH].
      * exact IH.
    + apply ret_inv in Hrun as (-> & _ & _). intros q.
      destruct (configs !! q); [apply raised_refl|done].
Qed.


(** *** Further properties: what a pass calls *)

Lemma same_names_refl configs : same_names configs configs.
Proof. intros q. by destruct (configs !! q). Qed.

Lemma same_names_trans c1 c2 c3 :
  same_names c1 c2 -> same_names c2 c3 -> same_names c1 c3.
Proof.
  intros H12 H23 q. specialize (H12 q). specialize (H23 q).
  destruct (c1 !! q), (c2 !! q), (c3 !! q); try done. congruence.
Qed.

Lemma same_names_insert (configs : Configs) q c c' :
  configs !! q = Some c -> Name c' = Name c ->
  same_names configs (<[q := c']> configs).
Proof.
  intros Hc Hn q'. rewrite lookup_insert. case_decide as Hq.
  - subst q'. by rewrite Hc.
  - by destruct (configs !! q').
Qed.



Lemma setCpuShares_inv q v (configs configs' : Configs) d d' evs :
  setCpuShares q v configs d = Some (configs', d', evs) ->
  d' = d /\ evs = [] /\ same_names configs configs'.
Proof.
  unfold setCpuShares. destruct (configs !! q) as [c|] eqn:Hc; [|done].
  intros [= <- <- <-]. split; [done|]. split; [done|].
  by eapply same_names_insert.
Qed.

Lemma setMemory_inv q v (configs configs' : Configs) d d' evs :
  setMemory q v configs d = Some (configs', d', evs) ->
  d' = d /\ evs = [] /\ same_names configs configs'.
Proof.
  unfold setMemory. destruct (configs !! q) as [c|] eqn:Hc; [|done].
  intros [= <- <- <-]. split; [done|]. split; [done|].
  by eapply same_names_insert.
Qed.

Lemma call_activePods_inv m d pods d' evs :
  call_activePods m d = Some (pods, d', evs) -> evs = [EvActivePods pods].
Proof.
  unfold call_activePods, call. destruct (activePods m) as [f|]; [|done].
  destruct (f d) as [pods' d'']. by intros [= <- <- <-].
Qed.

Lemma call_getNodeAllocatable_inv m d resources d' evs :
  call_getNodeAllocatable m d = Some (resources, d', evs) ->
  evs = [EvNodeAllocatable resources].
Proof.
  unfold call_getNodeAllocatable, call.
  destruct (getNodeAllocatable m) as [g|]; [|done].
  destruct (g d) as [resources' d'']. by intros [= <- <- <-].
Qed.

Lemma setCPUCgroupConfig_inv m (configs configs' : Configs) d r d' evs :
  setCPUCgroupConfig m configs d = Some ((r, configs'), d', evs) ->
  (exists pods, evs = [EvActivePods pods]) /\ same_names configs configs'.
Proof.
  unfold setCPUCgroupConfig. intros Hrun.
  apply bind_inv in Hrun as (pods & d1 & evs1 & evs2 & Hcall & Hrun & ->).
  apply call_activePods_inv in Hcall as ->.
  destruct (sumBurstableCPU pods 0) as [S|err].
  - apply bind_inv in Hrun as (c1 & d2 & e1 & e2 & H1 & Hrun & ->).
    apply setCpuShares_inv in H1 as (-> & -> & Hs1).
    apply bind_inv in Hrun as (c2 & d3 & e3 & e4 & H2 & Hrun & ->).
    apply setCpuShares_inv in H2 as (-> & -> & Hs2).
    apply ret_inv in Hrun as ([= -> ->] & _ & ->).
    split; [by exists pods|]. by eapply same_names_trans.
  - apply ret_inv in Hrun as ([= -> ->] & _ & ->).
    split; [by exists pods|]. apply same_names_refl.
Qed.

Lemma setMemoryReserve_inv m (configs configs' : Configs) percentReserve
  d d' evs :
  setMemoryReserve m configs percentReserve d = Some (configs', d', evs) ->
  Forall is_accessor_read evs /\ same_names configs configs'.
Proof.
  unfold setMemoryReserve. intros Hrun.
  apply bind_inv in Hrun as (pods & d1 & evs1 & evs2 & Hcall & Hrun & ->).
  apply call_activePods_inv in Hcall as ->.
  destruct (sumMemoryRequests pods _) as [qmr|].
  2:{ apply ret_inv in Hrun as (-> & _ & ->).
      split; [by repeat constructor|apply same_names_refl]. }
  apply bind_inv in Hrun as (res & d2 & evs3 & evs4 & Hcall & Hrun & ->).
  apply call_getNodeAllocatable_inv in Hcall as ->.
  destruct (res !! ResourceMemory) as [a|].
  2:{ apply ret_inv in Hrun as (-> & _ & ->).
      split; [by repeat constructor|apply same_names_refl]. }
  destruct (Value a =? 0).
  { apply ret_inv in Hrun as (-> & _ & ->).
    split; [by repeat constructor|apply same_names_refl]. }
  apply bind_inv in Hrun as (c1 & d3 & e1 & e2 & H1 & Hrun & ->).
  apply setMemory_inv in H1 as (-> & -> & Hs1).
  apply setMemory_inv in Hrun as (-> & -> & Hs2).
  split; [by repeat constructor|]. by eapply same_names_trans.
Qed.

Lemma reserveResources_inv m entries :
  forall (configs configs' : Configs) d d' evs,
    reserveResources m entries configs d = Some (configs', d', evs) ->
    Forall is_accessor_read evs /\ same_names configs configs'.
Proof.
  induction entries as [|[r p] entries IH]; intros configs configs' d d' evs;
    cbn [reserveResources].
  - intros Hrun. apply ret_inv in Hrun as (-> & _ & ->).
    split; [done|apply same_names_refl].
  - case_decide; [|by apply IH].
    intros Hrun.
    apply bind_inv in Hrun as (c1 & d1 & e1 & e2 & H1 & Hrun & ->).
    apply setMemoryReserve_inv in H1 as [Ha Hs].
    apply IH in Hrun as [Ha' Hs'].
    split; [by apply Forall_app|by eapply same_names_trans].
Qed.

Lemma updateAll_events order :
  forall (configs : Configs) updateSuccess d ok d' evs,
    updateAll order configs updateSuccess d = Some (ok, d', evs) ->
    Forall (fun ev => exists q c r, configs !! q = Some c /\
                                    ev = EvUpdate c r) evs.
Proof.
  induction order as [|q order IH]; intros configs b d ok d' evs;
    cbn [updateAll].
  - intros Hrun. by apply ret_inv in Hrun as (_ & _ & ->).
  - destruct (configs !! q) as [c|] eqn:Hc; [|by apply IH].
    intros Hrun.
    apply bind_inv in Hrun as (err & d1 & e1 & e2 & Hcall & Hrun & ->).
    unfold call in Hcall. destruct (Update c d) as [err' d1'].
    injection Hcall as -> -> <-. constructor; [by exists q, c, err|].
    by eapply IH.
Qed.

Lemma updateAgain_events order :
  forall (configs : Configs) d res d' evs,
    updateAgain order configs d = Some (res, d', evs) ->
    Forall (fun ev => exists q c r, configs !! q = Some c /\
                                    ev = EvUpdate c r) evs.
Proof.
  induction order as [|q order IH]; intros configs d res d' evs;
    cbn [updateAgain].
  - intros Hrun. by apply ret_inv in Hrun as (_ & _ & ->).
  - destruct (configs !! q) as [c|] eqn:Hc; [|by apply IH].
    intros Hrun.
    apply bind_inv in Hrun as (err & d1 & e1 & e2 & Hcall & Hrun & ->).
    unfold call in Hcall. destruct (Update c d) as [err' d1'].
    injection Hcall as -> -> <-. constructor; [by exists q, c, err|].
    destruct err as [e|].
    + by apply ret_inv in Hrun as (_ & _ & ->).
    + by eapply IH.
Qed.

Lemma retrySetMemoryReserve_reads order percentReserve :
  forall (configs configs' : Configs) d d' evs,
    retrySetMemoryReserve order configs percentReserve d
    = Some (configs', d', evs) ->
    Forall (fun ev => exists q c r, configs !! q = Some c /\
                                    ev = EvGetResourceStats (Name c) r) evs.
Proof.
  induction order as [|q0 order IH]; intros configs configs' d d' evs;
    cbn [retrySetMemoryReserve].
  - intros Hrun. by apply ret_inv in Hrun as (_ & _ & ->).
  - destruct (configs !! q0) as [c0|] eqn:Hc0; [|by apply IH].
    intros Hrun.
    apply bind_inv in Hrun as (r & d1 & e1 & e2 & Hcall & Hrun & ->).
    unfold call in Hcall.
    destruct (GetResourceStats (Name c0) d) as [r' d1'].
    injection Hcall as -> -> <-. constructor; [by exists q0, c0, r|].
    destruct r as [stats|err].
    + rewrite (adjusted_insert _ _ _ _ Hc0) in Hrun.
      apply IH in Hrun. eapply Forall_impl; [exact Hrun|].
      intros ev (q & c & r & Hc & ->). rewrite lookup_insert in Hc.
      case_decide as Hq.
      * injection Hc as <-. subst q0. exists q, c0, r. split; [done|].
        f_equal. by destruct (raised_adjusted (Usage (MemoryStats_ stats)) c0).
      * by exists q, c, r.
    + by apply ret_inv in Hrun as (_ & _ & ->).
Qed.

Lemma retrySetMemoryReserve_same_names order percentReserve :
  forall (configs configs' : Configs) d d' evs,
    retrySetMemoryReserve order configs percentReserve d
    = Some (configs', d', evs) ->
    same_names configs configs'.
Proof.
  induction order as [|q0 order IH]; intros configs configs' d d' evs;
    cbn [retrySetMemoryReserve].
  - intros Hrun. apply ret_inv in Hrun as (-> & _ & _).
    apply same_names_refl.
  - destruct (configs !! q0) as [c0|] eqn:Hc0; [|by apply IH].
    intros Hrun.
    apply bind_inv in Hrun as ([stats|err] & d1 & e1 & e2 & _ & Hrun & _).
    + rewrite (adjusted_insert _ _ _ _ Hc0) in Hrun. apply IH in Hrun.
      eapply same_names_trans; [|exact Hrun].
      eapply same_names_insert; [exact Hc0|].
      by destruct (raised_adjusted (Usage (MemoryStats_ stats)) c0).
    + apply ret_inv in Hrun as (-> & _ & _). apply same_names_refl.
Qed.


Lemma retryReserveResources_inv entries order :
  forall (configs configs' : Configs) d d' evs,
    retryReserveResources entries order configs d = Some (configs', d', evs) ->
    same_names configs configs' /\
    Forall (fun ev => exists q c r, configs !! q = Some c /\
                                    ev = EvGetResourceStats (Name c) r) evs.
Proof.
  induction entries as [|[r p] entries IH]; intros configs configs' d d' evs;
    cbn [retryReserveResources].
  - intros Hrun. apply ret_inv in Hrun as (-> & _ & ->).
    split; [apply same_names_refl|done].
  - case_decide; [|by apply IH].
    intros Hrun.
    apply bind_inv in Hrun as (c1 & d1 & e1 & e2 & H1 & Hrun & ->).
    pose proof (retrySetMemoryReserve_same_names _ _ _ _ _ _ _ H1) as Hs.
    apply retrySetMemoryReserve_reads in H1.
    apply IH in Hrun as [Hs' He].
    split; [by eapply same_names_trans|].
    apply Forall_app. split; [done|].
    eapply Forall_impl; [exact He|].
    intros ev (q & c & r' & Hc & ->). specialize (Hs q). rewrite Hc in Hs.
    destruct (configs !! q) as [c0|] eqn:Hc0; [|done].
    exists q, c0, r'. split; [done|]. by rewrite Hs.
Qed.

(** A pass that returns, taken apart. *)
Lemma UpdateCgroups_inv m o1 oR o2 d res d' evs :
  UpdateCgroups m o1 oR o2 d = Some (res, d', evs) ->
  exists r cfg1 d1 evs1,
    setCPUCgroupConfig m (newConfigs m) d = Some ((r, cfg1), d1, evs1) /\
    match r with
    | Some e => res = Some e /\ d' = d1 /\ evs = evs1
    | None =>
        exists cfg2 d2 evs2 ok d3 evs3,
          reserveResources m (map_to_list (qosReserved m)) cfg1 d1
          = Some (cfg2, d2, evs2) /\
          updateAll o1 cfg2 true d2 = Some (ok, d3, evs3) /\
          if ok then res = None /\ d' = d3 /\ evs = evs1 ++ evs2 ++ evs3
          else
            exists cfg3 d4 evs4 evs5,
              retryReserveResources (map_to_list (qosReserved m)) oR cfg2 d3
              = Some (cfg3, d4, evs4) /\
              updateAgain o2 cfg3 d4 = Some (res, d', evs5) /\
              evs = evs1 ++ evs2 ++ evs3 ++ evs4 ++ evs5
    end.
Proof.
  unfold UpdateCgroups. intros Hrun.
  apply bind_inv in Hrun as ([r cfg1] & d1 & evs1 & evsA & Hcpu & Hrun & ->).
  exists r, cfg1, d1, evs1. split; [done|].
  destruct r as [e|].
  - apply ret_inv in Hrun as (-> & -> & ->). by rewrite app_nil_r.
  - apply bind_inv in Hrun as (cfg2 & d2 & evs2 & evsB & Hres & Hrun & ->).
    apply bind_inv in Hrun as (ok & d3 & evs3 & evsC & Hupd & Hrun & ->).
    exists cfg2, d2, evs2, ok, d3, evs3. split; [done|]. split; [done|].
    destruct ok.
    + apply ret_inv in Hrun as (-> & -> & ->). by rewrite app_nil_r.
    + unfold secondRound in Hrun.
      apply bind_inv in Hrun as (cfg3 & d4 & evs4 & evs5 & HR & HU & ->).
      by exists cfg3, d4, evs4, evs5.
Qed.






(** X6: with per-QoS cgroups disabled the constructor returns the no-op
    manager, which remembers [nodeConfig.CgroupRoot]; through the
    interface, [Start] and [UpdateCgroups] return nil without a single
    call, even when no cgroup exists, and the tier paths are empty. *)
Theorem disabled_is_inert cgroupRoot' nodeConfig getNodeAllocatable'
  activePods' o1 oR o2 d :
  CgroupsPerQOS nodeConfig = false ->
  let noop := ManagerNoop {| noop_cgroupRoot := CgroupRoot nodeConfig |} in
  NewQOSContainerManager cgroupRoot' nodeConfig = (noop, None) /\
  interface_Start noop getNodeAllocatable' activePods' d
  = Some ((None, noop), d, []) /\
  interface_UpdateCgroups noop o1 oR o2 d = Some (None, d, []) /\
  interface_GetQOSContainersInfo noop
  = {| Guaranteed := ""; Burstable := ""; BestEffort := "" |}.
Proof.
  intros Hdis noop. unfold NewQOSContainerManager. rewrite Hdis.
  repeat split.
Qed.


(** *** Further properties: what a pass writes *)

(** X7: in a pass where both computations run to their end, the first
    round writes each tier once, in the order of its loop, and each
    write carries both targets: the CPU shares computed from the pods
    read first and the memory limit computed from the pods read second;
    neither computation undoes the other.  When every one of these
    writes succeeds the pass returns nil and calls nothing more. *)
Theorem first_round_writes m o1 oR o2 f g d pods1 d1 pods2 d2 resources d3
  allocatableResource percentReserve :
  activePods m = Some f -> getNodeAllocatable m = Some g ->
  f d = (pods1, d1) -> f d1 = (pods2, d2) -> g d2 = (resources, d3) ->
  (forall pod, pod ∈ pods1 -> GetPodQOS pod = PodQOSBurstable ->
               determinable pod) ->
  (forall pod, pod ∈ pods2 -> GetPodQOS pod <> PodQOSBestEffort ->
               determinable pod) ->
  qosReserved m !! ResourceMemory = Some percentReserve ->
  resources !! ResourceMemory = Some allocatableResource ->
  Value allocatableResource <> 0 ->
  range_order (newConfigs m) o1 -> range_order (newConfigs m) o2 ->
  let shares :=
    Z.max MinShares
      (MilliCPUToShares (Int64.wrap (burstableCPURequestSum pods1))) in
  let burstableLimit :=
    memoryLimit (Value allocatableResource)
      (Int64.wrap (memoryRequestSum PodQOSGuaranteed pods2))
      percentReserve in
  let bestEffortLimit :=
    memoryLimit burstableLimit
      (Int64.wrap (memoryRequestSum PodQOSBurstable pods2))
      percentReserve in
  exists res d' writes rest,
    UpdateCgroups m o1 oR o2 d
    = Some (res, d',
            EvActivePods pods1 :: EvActivePods pods2
            :: EvNodeAllocatable resources :: writes ++ rest) /\
    length writes = length o1 /\
    (forall k q, o1 !! k = Some q ->
       exists c r,
         firstRoundConfig m shares burstableLimit bestEffortLimit q = Some c /\
         writes !! k = Some (EvUpdate c r)) /\
    ((forall c r, EvUpdate c r ∈ writes -> r = None) ->
     res = None /\ rest = []).
Proof.
  intros Hf Hg Hfd1 Hfd2 Hgd Hdet1 Hdet2 HP Hmem Hnz Ho1 Ho2
    shares burstableLimit bestEffortLimit.
  destruct (sumBurstableCPU_sum pods1 Hdet1 0) as (S & HS & _).
  { vm_compute. split; discriminate. }
  destruct (UpdateCgroups_run m o1 oR o2 f g d pods1 d1 S Hf Hg Hfd1 HS Ho1 Ho2)
    as (cfg1 & cfg2 & d2' & evs2 & ok & d3' & evs3 & res & d' & evs4
        & Hcpu & _ & Hres & _ & _ & Hkeys & Hupd & _ & Hok & Hsecond & Hrun).
  rewrite (setCPUCgroupConfig_run m (newConfigs m) f d pods1 d1 _ _ Hf Hfd1
             Hdet1 (newConfigs_lookup m PodQOSBurstable)
             (newConfigs_lookup m PodQOSBestEffort)) in Hcpu.
  injection Hcpu as <-.
  rewrite (reserveResources_qosReserved _ _ _ _ HP) in Hres.
  erewrite (setMemoryReserve_run m _ percentReserve f g d1 pods2 d2
              resources d3 allocatableResource _ _ Hf Hfd2 Hdet2 Hg Hgd
              Hmem Hnz) in Hres.
  2:{ by rewrite lookup_insert_eq. }
  2:{ rewrite lookup_insert_ne by done. by rewrite lookup_insert_eq. }
  injection Hres as <- <- <-.
  fold shares burstableLimit bestEffortLimit in Hupd, Hkeys.
  match type of Hupd with updateAll _ ?c _ _ = _ => set (cfg2 := c) in * end.
  assert (Hcfg2 : forall q c, cfg2 !! q = Some c ->
            firstRoundConfig m shares burstableLimit bestEffortLimit q
            = Some c).
  { intros q c. unfold cfg2. destruct q.
    - rewrite !lookup_insert_ne by done. by rewrite newConfigs_lookup.
    - rewrite lookup_insert_ne by done. rewrite lookup_insert_eq.
      by intros [= <-].
    - rewrite lookup_insert_eq. by intros [= <-]. }
  destruct Ho1 as [Hnd1 Hk1].
  destruct (updateAll_spec o1 cfg2
              ltac:(intros q Hq; by apply Hkeys, Hk1) true d3)
    as (ok' & d3'' & evs3' & Hupd' & Hlen & Hevs3 & _).
  rewrite Hupd in Hupd'. injection Hupd' as <- <- <-.
  exists res, d', evs3, evs4. split; [exact Hrun|]. split; [done|]. split.
  - intros k q Hq.
    destruct (lookup_lt_is_Some_2 evs3 k) as [ev Hev].
    { rewrite Hlen. by eapply lookup_lt_Some. }
    destruct (Hevs3 k ev Hev) as (q' & c & r & Hq' & Hc & ->).
    assert (q' = q) as -> by congruence.
    exists c, r. split; [by apply Hcfg2|done].
  - intros Hall. apply Hok in Hall. subst ok. by destruct Hsecond as (-> & _ & ->).
Qed.


Lemma setCPUCgroupConfig_memory_nil m (configs configs' : Configs)
  d r d' evs :
  setCPUCgroupConfig m configs d = Some ((r, configs'), d', evs) ->
  memory_nil configs -> memory_nil configs'.
Proof.
  unfold setCPUCgroupConfig. intros Hrun Hnil.
  apply bind_inv in Hrun as (pods & d1 & evs1 & evs2 & _ & Hrun & _).
  destruct (sumBurstableCPU pods 0) as [S|err].
  - unfold setCpuShares in Hrun.
    destruct (configs !! PodQOSBestEffort) as [ce|] eqn:Hce; [|done].
    rewrite bind_ret_run in Hrun.
    match type of Hrun with context [?c !! PodQOSBurstable] =>
      destruct (c !! PodQOSBurstable) as [cb|] eqn:Hcb; [|done] end.
    rewrite bind_ret_run in Hrun.
    apply ret_inv in Hrun as ([= -> ->] & _).
    apply memory_nil_withCpuShares; [|done].
    by apply memory_nil_withCpuShares.
  - by apply ret_inv in Hrun as ([= -> ->] & _).
Qed.

Lemma qosReserved_no_memory m :
  qosReserved m !! ResourceMemory = None ->
  ResourceMemory ∉ (map_to_list (qosReserved m)).*1.
Proof.
  intros HP Hin. apply list_elem_of_fmap in Hin as ([r p] & Hr & Hin).
  simpl in Hr. subst r. apply elem_of_map_to_list in Hin. congruence.
Qed.

(** X8: when the reserved-resource map has no entry for memory, a pass
    reads the active pods once, never reads the node-allocatable
    resources nor the stats of a cgroup, and every write it makes, in
    the first and in the second round, carries a nil memory target. *)
Theorem pass_without_memory_reserve m o1 oR o2 d res d' evs :
  qosReserved m !! ResourceMemory = None ->
  UpdateCgroups m o1 oR o2 d = Some (res, d', evs) ->
  activePodsReads evs = 1%nat /\ Forall cpu_only_event evs.
Proof.
  intros HP Hrun. apply qosReserved_no_memory in HP.
  apply UpdateCgroups_inv in Hrun as (r & cfg1 & d1 & evs1 & Hcpu & Hrest).
  pose proof (setCPUCgroupConfig_memory_nil _ _ _ _ _ _ _ Hcpu
                (newConfigs_memory_nil m)) as Hnil.
  apply setCPUCgroupConfig_inv in Hcpu as [[pods ->] _].
  destruct r as [e|].
  { destruct Hrest as (_ & _ & ->). split; [done|]. by repeat constructor. }
  destruct Hrest as (cfg2 & d2 & evs2 & ok & d3 & evs3 & Hres & Hupd & Hrest).
  rewrite (reserveResources_no_memory _ _ HP) in Hres.
  apply ret_inv in Hres as (-> & -> & ->).
  apply updateAll_events in Hupd.
  assert (Hw : forall (evsW : list event),
            Forall (fun ev => exists q c r, cfg1 !! q = Some c /\
                                            ev = EvUpdate c r) evsW ->
            activePodsReads evsW = 0%nat /\ Forall cpu_only_event evsW).
  { induction 1 as [|ev evsW (q & c & r & Hc & ->) _ [IH1 IH2]];
      [done|].
    split; [done|]. constructor; [by eapply Hnil|done]. }
  assert (Happ : forall (l1 l2 : list event),
            activePodsReads (l1 ++ l2)
            = (activePodsReads l1 + activePodsReads l2)%nat).
  { induction l1 as [|[] l1 IH]; intros l2; simpl; by rewrite ?IH. }
  destruct (Hw _ Hupd) as [H31 H32].
  destruct ok.
  - destruct Hrest as (_ & _ & ->). simpl. rewrite H31.
    split; [done|]. by constructor.
  - destruct Hrest as (cfg3 & d4 & evs4 & evs5 & HR & HU & ->).
    rewrite (retryReserveResources_no_memory _ _ HP) in HR.
    apply ret_inv in HR as (-> & -> & ->).
    apply updateAgain_events in HU. destruct (Hw _ HU) as [H51 H52].
    simpl. rewrite !Happ, H31, H51. split; [done|].
    constructor; [done|]. by apply Forall_app.
Qed.

Lemma setCPUCgroupConfig_error m (configs configs' : Configs) d r d' evs :
  setCPUCgroupConfig m configs d = Some ((r, configs'), d', evs) ->
  forall e pods, r = Some e -> evs = [EvActivePods pods] ->
                 sumBurstableCPU pods 0 = inr e.
Proof.
  unfold setCPUCgroupConfig. intros Hrun e pods -> ->.
  apply bind_inv in Hrun as (pods' & d1 & evs1 & evs2 & Hcall & Hrun & Hevs).
  apply call_activePods_inv in Hcall as ->.
  destruct (sumBurstableCPU pods' 0) as [S|err] eqn:HS.
  - apply bind_inv in Hrun as (c1 & d2 & e1 & e2 & _ & Hrun & _).
    apply bind_inv in Hrun as (c2 & d3 & e3 & e4 & _ & Hrun & _).
    by apply ret_inv in Hrun as ([=] & _).
  - apply ret_inv in Hrun as ([= -> _] & _ & ->).
    by injection Hevs as ->.
Qed.

(** X9: a pass returns nil exactly when the last call it made is a write
    that succeeded; so a write rejected in the first round is not
    reported when the second round goes through.  An error it returns
    is the pod error of the CPU-share computation, the pass having
    stopped after its read of the pods, or the error of the last call,
    a rejected write after which nothing more is written. *)
Theorem pass_nil_iff_last_write_ok m o1 oR o2 d res d' evs :
  range_order (newConfigs m) o1 -> range_order (newConfigs m) o2 ->
  UpdateCgroups m o1 oR o2 d = Some (res, d', evs) ->
  (res = None <-> exists c, last evs = Some (EvUpdate c None)) /\
  (forall e, res = Some e ->
     (exists pods, evs = [EvActivePods pods] /\
                   sumBurstableCPU pods 0 = inr e) \/
     (exists c, last evs = Some (EvUpdate c (Some e)))).
Proof.
  intros [Hnd1 Hk1] [Hnd2 Hk2] Hrun.
  apply UpdateCgroups_inv in Hrun as (r & cfg1 & d1 & evs1 & Hcpu & Hrest).
  pose proof (setCPUCgroupConfig_error _ _ _ _ _ _ _ Hcpu) as Herr.
  apply setCPUCgroupConfig_inv in Hcpu as [[pods ->] Hs1].
  destruct r as [e|].
  { destruct Hrest as (-> & _ & ->).
    split; [split; [done|by intros [c [=]]]|].
    intros e' [= <-]. left. exists pods. split; [done|].
    by apply (Herr e pods). }
  destruct Hrest as (cfg2 & d2 & evs2 & ok & d3 & evs3 & Hres & Hupd & Hrest).
  apply reserveResources_inv in Hres as [_ Hs2].
  pose proof (same_names_trans _ _ _ Hs1 Hs2) as Hs12.
  assert (Hkeys : forall cfg, same_names (newConfigs m) cfg ->
            forall (o : list PodQOSClass) q,
              (forall q, q ∈ o <-> is_Some (newConfigs m !! q)) ->
                        q ∈ o -> is_Some (cfg !! q)).
  { intros cfg Hs o q Hk Hq. apply Hk in Hq as [c Hc].
    specialize (Hs q). rewrite Hc in Hs.
    destruct (cfg !! q); [by eexists|done]. }
  assert (Hne : forall o : list PodQOSClass,
            (forall q, q ∈ o <-> is_Some (newConfigs m !! q)) ->
                          (0 < length o)%nat).
  { intros o Hk. destruct o as [|q o]; [|simpl; lia].
    exfalso. eapply (not_elem_of_nil PodQOSBurstable). apply Hk.
    apply newConfigs_keys. by left. }
  assert (Hlast : forall (l : list event),
            (0 < length l)%nat ->
            (forall k ev, l !! k = Some ev -> exists c, ev = EvUpdate c None) ->
            exists c, last l = Some (EvUpdate c None)).
  { intros l Hl Hall. destruct (last l) as [ev|] eqn:Hev.
    - rewrite last_lookup in Hev. destruct (Hall _ _ Hev) as [c ->].
      by exists c.
    - apply last_None in Hev. subst l. simpl in Hl. lia. }
  destruct (updateAll_spec o1 cfg2
              ltac:(intros q Hq; by eapply (Hkeys cfg2 Hs12 o1)) true d2)
    as (ok' & d3' & evs3' & Hupd' & Hlen3 & Hevs3 & Hok).
  rewrite Hupd in Hupd'. injection Hupd' as <- <- <-.
  destruct ok.
  - destruct Hrest as (-> & _ & ->). split; [|done].
    split; [intros _|done].
    destruct (Hlast evs3) as [c Hc].
    { rewrite Hlen3. by apply Hne. }
    { intros k ev Hk. destruct (Hevs3 k ev Hk) as (q & c & r & _ & _ & ->).
      exists c. f_equal. destruct Hok as [Hok _].
      destruct (Hok eq_refl) as [_ Hall]. eapply Hall.
      by eapply list_elem_of_lookup_2. }
    exists c. rewrite !last_app, Hc. done.
  - destruct Hrest as (cfg3 & d4 & evs4 & evs5 & HR & HU & ->).
    apply retryReserveResources_inv in HR as [Hs3 _].
    pose proof (same_names_trans _ _ _ Hs12 Hs3) as Hs123.
    destruct (updateAgain_spec o2 cfg3
                ltac:(intros q Hq; by eapply (Hkeys cfg3 Hs123 o2)) d4)
      as (res' & d'' & evs5' & HU' & Hevs5 & Hres5).
    rewrite HU in HU'. injection HU' as <- <- <-.
    destruct res as [e|].
    + destruct Hres5 as [c Hc]. split.
      * split; [done|]. intros [c' Hc'].
        rewrite !last_app, Hc in Hc'. done.
      * intros e' [= <-]. right. exists c. by rewrite !last_app, Hc.
    + destruct Hres5 as [Hlen5 Hall5]. split; [|done].
      split; [intros _|done].
      destruct (Hlast evs5) as [c Hc].
      { rewrite Hlen5. by apply Hne. }
      { intros k ev Hk. destruct (Hevs5 k ev Hk) as (q & c & r & _ & _ & ->).
        exists c. f_equal. eapply Hall5. by eapply list_elem_of_lookup_2. }
      exists c. rewrite !last_app, Hc. done.
Qed.

(** *** Further properties: the limit expression *)

(** X10: as long as nothing overflows and the percentage is not
    negative, a larger sum of requests never gives a larger limit: more
    declared demand in a tier can only lower the limits of the tiers
    below it. *)
Theorem memoryLimit_antitone upper requests requests' percentReserve :
  0 <= percentReserve -> requests <= requests' ->
  Int64.in_range (requests * percentReserve) ->
  Int64.in_range (requests' * percentReserve) ->
  Int64.in_range (upper - requests * percentReserve ÷ 100) ->
  Int64.in_range (upper - requests' * percentReserve ÷ 100) ->
  memoryLimit upper requests' percentReserve
  <= memoryLimit upper requests percentReserve.
Proof.
  intros HP Hle H1 H2 H3 H4.
  rewrite !memoryLimit_exact by done.
  assert (requests * percentReserve ÷ 100 <= requests' * percentReserve ÷ 100).
  { apply Z.quot_le_mono; [lia|nia]. }
  lia.
Qed.


(** *** Further properties: starting again *)




(** *** Further properties: the shape of a pass *)

Lemma retrySetMemoryReserve_length order percentReserve :
  forall (configs configs' : Configs) d d' evs,
    retrySetMemoryReserve order configs percentReserve d
    = Some (configs', d', evs) ->
    (length evs <= length order)%nat.
Proof.
  induction order as [|q0 order IH]; intros configs configs' d d' evs;
    cbn [retrySetMemoryReserve].
  - intros Hrun. by apply ret_inv in Hrun as (_ & _ & ->).
  - destruct (configs !! q0) as [c0|] eqn:Hc0.
    2:{ intros Hrun. apply IH in Hrun. simpl. lia. }
    intros Hrun.
    apply bind_inv in Hrun as (r & d1 & e1 & e2 & Hcall & Hrun & ->).
    unfold call in Hcall.
    destruct (GetResourceStats (Name c0) d) as [r' d1'].
    injection Hcall as -> -> <-. destruct r as [stats|err].
    + apply IH in Hrun. simpl. lia.
    + apply ret_inv in Hrun as (_ & _ & ->). simpl. lia.
Qed.

Lemma updateAgain_length order :
  forall (configs : Configs) d res d' evs,
    updateAgain order configs d = Some (res, d', evs) ->
    (length evs <= length order)%nat.
Proof.
  induction order as [|q order IH]; intros configs d res d' evs;
    cbn [updateAgain].
  - intros Hrun. by apply ret_inv in Hrun as (_ & _ & ->).
  - destruct (configs !! q) as [c|] eqn:Hc.
    2:{ intros Hrun. apply IH in Hrun. simpl. lia. }
    intros Hrun.
    apply bind_inv in Hrun as (err & d1 & e1 & e2 & Hcall & Hrun & ->).
    unfold call in Hcall. destruct (Update c d) as [err' d1'].
    injection Hcall as -> -> <-. destruct err as [e|].
    + apply ret_inv in Hrun as (_ & _ & ->). simpl. lia.
    + apply IH in Hrun. simpl. lia.
Qed.

Lemma retryReserveResources_events m order (configs configs' : Configs)
  d d' evs :
  retryReserveResources (map_to_list (qosReserved m)) order configs d
  = Some (configs', d', evs) ->
  Forall is_stats_read evs /\ (length evs <= length order)%nat.
Proof.
  destruct (qosReserved m !! ResourceMemory) as [P|] eqn:HP.
  - rewrite (retryReserveResources_qosReserved _ _ _ _ _ HP). intros Hrun.
    split; [by eapply retrySetMemoryReserve_events|].
    by eapply retrySetMemoryReserve_length.
  - rewrite (retryReserveResources_no_memory _ _ (qosReserved_no_memory _ HP)).
    intros Hrun. apply ret_inv in Hrun as (_ & _ & ->). split; [done|].
    simpl. lia.
Qed.

(** X14: the calls of a pass that gets past the CPU-share computation
    come in four runs: the reads through the accessors; one write per
    tier, made whether or not an earlier write failed; then, only when
    one of these writes failed, at most one stats read per tier and at
    most one more write per tier. *)
Theorem pass_shape m o1 oR o2 d res d' evs :
  range_order (newConfigs m) o1 ->
  UpdateCgroups m o1 oR o2 d = Some (res, d', evs) ->
  (exists pods e, evs = [EvActivePods pods] /\ res = Some e) \/
  exists reads writes stats rewrites,
    evs = reads ++ writes ++ stats ++ rewrites /\
    Forall is_accessor_read reads /\
    Forall is_update writes /\ length writes = length o1 /\
    Forall is_stats_read stats /\ (length stats <= length oR)%nat /\
    Forall is_update rewrites /\ (length rewrites <= length o2)%nat /\
    ((forall c r, EvUpdate c r ∈ writes -> r = None) ->
     stats = [] /\ rewrites = [] /\ res = None).
Proof.
  intros [Hnd1 Hk1] Hrun.
  apply UpdateCgroups_inv in Hrun as (r & cfg1 & d1 & evs1 & Hcpu & Hrest).
  apply setCPUCgroupConfig_inv in Hcpu as [[pods ->] Hs1].
  destruct r as [e|].
  { destruct Hrest as (-> & _ & ->). left. by exists pods, e. }
  right.
  destruct Hrest as (cfg2 & d2 & evs2 & ok & d3 & evs3 & Hres & Hupd & Hrest).
  apply reserveResources_inv in Hres as [Hacc Hs2].
  pose proof (same_names_trans _ _ _ Hs1 Hs2) as Hs12.
  destruct (updateAll_spec o1 cfg2) with (updateSuccess := true) (d := d2)
    as (ok' & d3' & evs3' & Hupd' & Hlen3 & Hevs3 & Hok).
  { intros q Hq. apply Hk1 in Hq as [c Hc]. specialize (Hs12 q).
    rewrite Hc in Hs12. destruct (cfg2 !! q); [by eexists|done]. }
  rewrite Hupd in Hupd'. injection Hupd' as <- <- <-.
  assert (Hw : Forall is_update evs3).
  { apply Forall_lookup. intros k ev Hk.
    by destruct (Hevs3 k ev Hk) as (? & ? & ? & _ & _ & ->). }
  destruct ok.
  - destruct Hrest as (-> & _ & ->).
    exists (EvActivePods pods :: evs2), evs3, [], [].
    split; [by rewrite !app_nil_r|].
    split; [by constructor|]. split; [done|]. split; [done|].
    split; [done|]. split; [simpl; lia|]. split; [done|].
    split; [simpl; lia|]. done.
  - destruct Hrest as (cfg3 & d4 & evs4 & evs5 & HR & HU & ->).
    apply retryReserveResources_events in HR as [Hst Hlen4].
    pose proof (updateAgain_length _ _ _ _ _ _ HU) as Hlen5.
    apply updateAgain_events in HU.
    exists (EvActivePods pods :: evs2), evs3, evs4, evs5.
    split; [done|]. split; [by constructor|]. split; [done|].
    split; [done|]. split; [done|]. split; [done|]. split.
    { eapply Forall_impl; [exact HU|]. by intros ev (? & ? & ? & _ & ->). }
    split; [done|].
    intros Hall. exfalso.
    assert (false = true); [|done].
    apply Hok. split; [done|]. exact Hall.
Qed.

End Manager.

(** ** Scenarios

    A small world to run the manager in: pods that carry their tier and
    the outcome of [PodRequestsAndLimits], and a cgroup driver that
    keeps the set of existing cgroups, rejects its next
    [updateFailures] updates, reports [usage] as the memory usage of
    every cgroup and fails to read the stats of the cgroups listed in
    [statsFailing]. *)

Module Scenario.

Record pod : Type := mkPod {
  podQOS : PodQOSClass;
  podResources : (ResourceList * ResourceList) + error
}.

Record world : Type := mkWorld {
  cgroups : list string;
  updateFailures : nat;
  usage : Z;
  statsFailing : list string
}.

#[global] Instance driver : CgroupManager world := {|
  Exists name w := (bool_decide (name ∈ cgroups w), w);
  Create c w :=
    (None,
     {| cgroups := Name c :: cgroups w; updateFailures := updateFailures w;
        usage := usage w; statsFailing := statsFailing w |});
  Update c w :=
    match updateFailures w with
    | O => (None, w)
    | S n =>
        (Some "write rejected",
         {| cgroups := cgroups w; updateFailures := n;
            usage := usage w; statsFailing := statsFailing w |})
    end;
  GetResourceStats name w :=
    (if bool_decide (name ∈ statsFailing w) then inr "no stats"
     else inl {| MemoryStats_ := {| Usage := usage w |} |}, w)
|}.

Definition minShares : Z := 2.
Definition milliCPUToShares (milliCPU : Z) : Z :=
  Int64.quot (Int64.mul milliCPU 1024) 1000.
Definition join (a b : string) : string := a +:+ "/" +:+ b.

Definition GiB : Z := 1073741824.

Definition memoryOnly (bytes : Z) : ResourceList :=
  {[ ResourceMemory := {| Value := bytes; MilliValue := bytes * 1000 |} ]}.

Definition cpuOnly (milli : Z) : ResourceList :=
  {[ ResourceCPU := {| Value := milli / 1000; MilliValue := milli |} ]}.

(** A started manager over the root ["/kubepods"], reserving
    [percent] of memory, with [pods] active and [allocatable] bytes of
    memory on the node. *)
Definition manager (percent : Z) (pods : list pod) (resources : ResourceList)
  : @qosContainerManagerImpl pod world :=
  {| qosContainersInfo :=
       {| Guaranteed := "/kubepods";
          Burstable := "/kubepods/Burstable";
          BestEffort := "/kubepods/BestEffort" |};
     activePods := Some (fun w => (pods, w));
     getNodeAllocatable := Some (fun w => (resources, w));
     cgroupRoot := "/kubepods";
     qosReserved := {[ ResourceMemory := percent ]} |}.

Definition quiet : world :=
  {| cgroups := ["/kubepods"]; updateFailures := 0; usage := 0;
     statsFailing := [] |}.

Definition guaranteed1GiB : pod :=
  mkPod PodQOSGuaranteed (inl (memoryOnly GiB, memoryOnly GiB)).

Definition burstable500m : pod :=
  mkPod PodQOSBurstable (inl (cpuOnly 500, ∅)).

Definition undeterminable : pod :=
  mkPod PodQOSBurstable (inr "requests unknown").

(** One Guaranteed pod requesting 1 GiB, 10 GiB allocatable. *)
Definition oneGuaranteed : qosContainerManagerImpl :=
  manager 50 [guaranteed1GiB] (memoryOnly (10 * GiB)).

(** A Burstable pod asking for 500m CPU next to the Guaranteed pod. *)
Definition twoPods : qosContainerManagerImpl :=
  manager 50 [burstable500m; guaranteed1GiB] (memoryOnly (10 * GiB)).

(** A Burstable pod whose requests cannot be determined. *)
Definition withUndeterminable : qosContainerManagerImpl :=
  manager 50 [guaranteed1GiB; undeterminable] (memoryOnly (10 * GiB)).

(** No allocatable memory reported. *)
Definition standalone : qosContainerManagerImpl :=
  manager 50 [guaranteed1GiB] ∅.

(** Configs with memory targets of 100 and 300 bytes. *)
Definition targets : Configs :=
  {[ PodQOSBurstable :=
       {| Name := "/kubepods/Burstable";
          ResourceParameters :=
            {| Memory := Some 100; CpuShares := Some 512 |} |};
     PodQOSBestEffort :=
       {| Name := "/kubepods/BestEffort";
          ResourceParameters :=
            {| Memory := Some 300; CpuShares := Some 2 |} |} ]}.

(** Both tiers exist and use 200 bytes. *)
Definition busy : world :=
  {| cgroups := ["/kubepods"; "/kubepods/Burstable"; "/kubepods/BestEffort"];
     updateFailures := 0; usage := 200; statsFailing := [] |}.

(** The stats of BestEffort cannot be read. *)
Definition blind : world :=
  {| cgroups := ["/kubepods"; "/kubepods/Burstable"; "/kubepods/BestEffort"];
     updateFailures := 0; usage := 400;
     statsFailing := ["/kubepods/BestEffort"] |}.

(** A manager as [NewQOSContainerManager] leaves it, before [Start]. *)
Definition fresh : @qosContainerManagerImpl pod world :=
  {| qosContainersInfo := {| Guaranteed := ""; Burstable := "";
                             BestEffort := "" |};
     activePods := None; getNodeAllocatable := None;
     cgroupRoot := "/kubepods"; qosReserved := {[ ResourceMemory := 50 ]} |}.

(** The next write is rejected and usage is above 10 GiB. *)
Definition overcommitted : world :=
  {| cgroups := ["/kubepods"; "/kubepods/Burstable"; "/kubepods/BestEffort"];
     updateFailures := 1; usage := 11 * GiB; statsFailing := [] |}.

(** A config with both targets set. *)
Definition tier (name : string) (memory cpuShares : Z) : CgroupConfig :=
  {| Name := name;
     ResourceParameters :=
       {| Memory := Some memory; CpuShares := Some cpuShares |} |}.

(** [overcommitted] after its one rejected write. *)
Definition busy11 : world :=
  {| cgroups := ["/kubepods"; "/kubepods/Burstable"; "/kubepods/BestEffort"];
     updateFailures := 0; usage := 11 * GiB; statsFailing := [] |}.

(** A BestEffort pod whose requests cannot be determined. *)
Definition opaqueBestEffort : pod :=
  mkPod PodQOSBestEffort (inr "requests unknown").

(** The Burstable pod among pods of the other tiers. *)
Definition mixedPods : qosContainerManagerImpl :=
  manager 50 [opaqueBestEffort; burstable500m] (memoryOnly (10 * GiB)).

(** A started manager that reserves no resource. *)
Definition unreserved : @qosContainerManagerImpl pod world :=
  {| qosContainersInfo :=
       {| Guaranteed := "/kubepods";
          Burstable := "/kubepods/Burstable";
          BestEffort := "/kubepods/BestEffort" |};
     activePods := Some (fun w => ([burstable500m; guaranteed1GiB], w));
     getNodeAllocatable := Some (fun w => (memoryOnly (10 * GiB), w));
     cgroupRoot := "/kubepods";
     qosReserved := ∅ |}.


Definition disabledConfig : NodeConfig :=
  {| CgroupsPerQOS := false; CgroupRoot := "/"; CgroupDriver := "cgroupfs";
     ExperimentalQOSReserved := ∅ |}.

(** A world without any cgroup. *)
Definition bare : world :=
  {| cgroups := []; updateFailures := 0; usage := 0; statsFailing := [] |}.

End Scenario.

Import Scenario.

(** *** Scenario: one Guaranteed pod requesting 1 GiB, 10 GiB
    allocatable, 50 percent reserved *)

(** A run of C1's theorem: both tiers get 9.5 GiB. *)
Lemma memory_reserve_limits_witness :
  exists configs',
    reserveResources podQOS podResources oneGuaranteed
      (map_to_list (qosReserved oneGuaranteed)) (newConfigs oneGuaranteed)
      quiet
    = Some (configs', quiet,
            [EvActivePods [guaranteed1GiB];
             EvNodeAllocatable (memoryOnly (10 * GiB))]) /\
    tierMemory configs' PodQOSBurstable = Some 10200547328 /\
    tierMemory configs' PodQOSBestEffort = Some 10200547328.
Proof.
  destruct (memory_reserve_limits podQOS podResources oneGuaranteed
              (newConfigs oneGuaranteed) 50
              (fun w => ([guaranteed1GiB], w))
              (fun w => (memoryOnly (10 * GiB), w))
              quiet [guaranteed1GiB] quiet (memoryOnly (10 * GiB)) quiet
              {| Value := 10 * GiB; MilliValue := 10 * GiB * 1000 |}
              {| Name := "/kubepods/Burstable";
                 ResourceParameters :=
                   {| Memory := None; CpuShares := None |} |}
              {| Name := "/kubepods/BestEffort";
                 ResourceParameters :=
                   {| Memory := None; CpuShares := None |} |})
    as (configs' & Hrun & Hbu & Hbe & _).
  - reflexivity.
  - reflexivity.
  - reflexivity.
  - intros pod Hin _. apply list_elem_of_singleton in Hin. subst pod.
    eexists _, _. reflexivity.
  - reflexivity.
  - reflexivity.
  - reflexivity.
  - vm_compute. discriminate.
  - reflexivity.
  - reflexivity.
  - exists configs'. split; [exact Hrun|]. unfold tierMemory.
    rewrite Hbu, Hbe. split; reflexivity.
Defined.



(** *** Scenario: a Burstable pod asking for 500m CPU next to the
    Guaranteed pod *)

(** A run of C3's theorem: BestEffort gets 2 shares, Burstable 512. *)
Lemma cpu_shares_determinable_witness :
  cpu_shares_set podQOS podResources minShares milliCPUToShares twoPods
    (newConfigs twoPods) quiet /\
  exists configs',
    setCPUCgroupConfig podQOS podResources minShares milliCPUToShares twoPods
      (newConfigs twoPods) quiet
    = Some ((None, configs'), quiet,
            [EvActivePods [burstable500m; guaranteed1GiB]]) /\
    tierCpuShares configs' PodQOSBestEffort = Some 2 /\
    tierCpuShares configs' PodQOSBurstable = Some 512.
Proof.
  destruct (cpu_shares_determinable podQOS podResources minShares
              milliCPUToShares twoPods (newConfigs twoPods)
              (fun w => ([burstable500m; guaranteed1GiB], w)) quiet
              [burstable500m; guaranteed1GiB] quiet
              {| Name := "/kubepods/Burstable";
                 ResourceParameters :=
                   {| Memory := None; CpuShares := None |} |}
              {| Name := "/kubepods/BestEffort";
                 ResourceParameters :=
                   {| Memory := None; CpuShares := None |} |})
    as (Hset & configs' & Hrun & Hbe & Hbu & _).
  - reflexivity.
  - reflexivity.
  - intros pod Hin _. apply elem_of_cons in Hin as [->|Hin].
    + eexists _, _. reflexivity.
    + apply list_elem_of_singleton in Hin. subst pod.
      eexists _, _. reflexivity.
  - reflexivity.
  - reflexivity.
  - split; [exact Hset|]. exists configs'. split; [exact Hrun|].
    unfold tierCpuShares. rewrite Hbe, Hbu. split; reflexivity.
Defined.

(** *** Scenario: a Burstable pod whose requests cannot be determined *)

(** C3 as stated fails on this population: the computation returns the
    pod error before any assignment, and the BestEffort config is left
    without CPU shares. *)
Lemma cpu_shares_unset_on_error :
  setCPUCgroupConfig podQOS podResources minShares milliCPUToShares
    withUndeterminable (newConfigs withUndeterminable) quiet
  = Some ((Some "requests unknown", newConfigs withUndeterminable), quiet,
          [EvActivePods [guaranteed1GiB; undeterminable]]) /\
  tierCpuShares (newConfigs withUndeterminable) PodQOSBestEffort = None /\
  ~ cpu_shares_set podQOS podResources minShares milliCPUToShares
      withUndeterminable (newConfigs withUndeterminable) quiet.
Proof.
  assert (Hrun : setCPUCgroupConfig podQOS podResources minShares
                   milliCPUToShares withUndeterminable
                   (newConfigs withUndeterminable) quiet
                 = Some ((Some "requests unknown",
                          newConfigs withUndeterminable), quiet,
                         [EvActivePods [guaranteed1GiB; undeterminable]]))
    by reflexivity.
  split; [exact Hrun|]. split; [reflexivity|].
  intros (r & configs' & d' & pods & Hrun' & Hbe & _).
  rewrite Hrun in Hrun'. injection Hrun' as <- <- <- <-.
  discriminate Hbe.
Qed.

(** A run of C4's theorem: the pass returns the pod error at once. *)
Lemma cpu_failure_aborts_pass_witness :
  exists err,
    UpdateCgroups podQOS podResources minShares milliCPUToShares
      withUndeterminable [PodQOSBurstable; PodQOSBestEffort]
      [PodQOSBurstable; PodQOSBestEffort]
      [PodQOSBurstable; PodQOSBestEffort] quiet
    = Some (Some err, quiet,
            [EvActivePods [guaranteed1GiB; undeterminable]]).
Proof.
  destruct (cpu_failure_aborts_pass podQOS podResources minShares
              milliCPUToShares withUndeterminable
              [PodQOSBurstable; PodQOSBestEffort]
              [PodQOSBurstable; PodQOSBestEffort]
              [PodQOSBurstable; PodQOSBestEffort]
              (fun w => ([guaranteed1GiB; undeterminable], w)) quiet
              [guaranteed1GiB; undeterminable] quiet)
    as (err & _ & Hrun & _).
  - reflexivity.
  - reflexivity.
  - exists undeterminable. split; [right; left|].
    split; [reflexivity|]. intros (req & lim & Hreq). discriminate Hreq.
  - by exists err.
Defined.

(** C4 as stated fails on this pass: memory is in the reserved map and
    allocatable memory is there, yet the pass ends with the pod error
    after the one read of the active pods; the memory reservation has
    not run and nothing was written. *)
Lemma cpu_failure_stops_memory :
  qosReserved withUndeterminable !! ResourceMemory = Some 50 /\
  UpdateCgroups podQOS podResources minShares milliCPUToShares
    withUndeterminable [PodQOSBurstable; PodQOSBestEffort]
    [PodQOSBurstable; PodQOSBestEffort]
    [PodQOSBurstable; PodQOSBestEffort] quiet
  = Some (Some "requests unknown", quiet,
          [EvActivePods [guaranteed1GiB; undeterminable]]) /\
  ~ cpu_failure_spares_memory podQOS podResources minShares milliCPUToShares
      withUndeterminable [PodQOSBurstable; PodQOSBestEffort]
      [PodQOSBurstable; PodQOSBestEffort]
      [PodQOSBurstable; PodQOSBestEffort] quiet.
Proof.
  split; [reflexivity|].
  assert (Hrun : UpdateCgroups podQOS podResources minShares
                   milliCPUToShares withUndeterminable
                   [PodQOSBurstable; PodQOSBestEffort]
                   [PodQOSBurstable; PodQOSBestEffort]
                   [PodQOSBurstable; PodQOSBestEffort] quiet
                 = Some (Some "requests unknown", quiet,
                         [EvActivePods [guaranteed1GiB; undeterminable]]))
    by reflexivity.
  split; [exact Hrun|].
  intros (res & d' & evs & Hrun' & Hran). rewrite Hrun in Hrun'.
  injection Hrun' as <- <- <-. unfold memory_reservation_ran in Hran.
  simpl in Hran. lia.
Qed.

(** *** Scenario: no allocatable memory reported *)

(** A run of C5's theorem: the pass succeeds and both writes carry a
    nil memory target. *)
Lemma no_allocatable_no_limits_witness :
  exists evs,
    UpdateCgroups podQOS podResources minShares milliCPUToShares standalone
      [PodQOSBurstable; PodQOSBestEffort]
      [PodQOSBurstable; PodQOSBestEffort]
      [PodQOSBurstable; PodQOSBestEffort] quiet
    = Some (None, quiet, evs) /\
    forall c r, EvUpdate c r ∈ evs -> Memory (ResourceParameters c) = None.
Proof.
  destruct (no_allocatable_no_limits podQOS podResources minShares
              milliCPUToShares standalone
              (fun w => ([guaranteed1GiB], w)) (fun w => (∅, w))
              [PodQOSBurstable; PodQOSBestEffort]
              [PodQOSBurstable; PodQOSBestEffort]
              [PodQOSBurstable; PodQOSBestEffort] quiet)
    as [_ (res & d' & evs & Hrun & Himp)].
  - reflexivity.
  - reflexivity.
  - apply range_order_newConfigs.
  - apply range_order_newConfigs.
  - assert (Hrun0 :
      UpdateCgroups podQOS podResources minShares milliCPUToShares standalone
        [PodQOSBurstable; PodQOSBestEffort]
        [PodQOSBurstable; PodQOSBestEffort]
        [PodQOSBurstable; PodQOSBestEffort] quiet
      = Some (None, quiet,
              [EvActivePods [guaranteed1GiB]; EvActivePods [guaranteed1GiB];
               EvNodeAllocatable ∅;
               EvUpdate {| Name := "/kubepods/Burstable";
                           ResourceParameters :=
                             {| Memory := None; CpuShares := Some 2 |} |}
                        None;
               EvUpdate {| Name := "/kubepods/BestEffort";
                           ResourceParameters :=
                             {| Memory := None; CpuShares := Some 2 |} |}
                        None]))
      by reflexivity.
    rewrite Hrun0 in Hrun. injection Hrun as <- <- <-.
    eexists. split; [exact Hrun0|]. apply Himp.
    intros resources Hin.
    repeat (apply elem_of_cons in Hin as [Hin|Hin]; [try discriminate Hin|]).
    + injection Hin as ->. intros a Ha. by rewrite lookup_empty in Ha.
    + apply elem_of_nil in Hin. destruct Hin.
Defined.

(** *** Scenario: usage of 200 bytes against targets of 100 and 300 *)

Lemma targets_keys q :
  is_Some (targets !! q) <-> q = PodQOSBurstable \/ q = PodQOSBestEffort.
Proof.
  destruct q.
  - split; [intros [c Hc]; discriminate Hc | intros [?|?]; discriminate].
  - split; [by left | intros _; by eexists].
  - split; [by right | intros _; by eexists].
Qed.

(** A run of C2's theorem: Burstable is moved up to the usage, 200;
    BestEffort keeps its 300. *)
Lemma retry_adjusts_to_usage_witness :
  exists configs' d' evs,
    retrySetMemoryReserve (Pod := pod) [PodQOSBurstable; PodQOSBestEffort]
      targets 50 busy
    = Some (configs', d', evs) /\
    tierMemory configs' PodQOSBurstable = Some 200 /\
    tierMemory configs' PodQOSBestEffort = Some 300.
Proof.
  destruct (retry_adjusts_to_usage (Pod := pod)
              [PodQOSBurstable; PodQOSBestEffort] 50 targets busy)
    as (configs' & d' & evs & Hrun & Hspec).
  - apply (range_order_two targets targets_keys).
  - intros q Hq. apply targets_keys.
    apply elem_of_cons in Hq as [->|Hq]; [by left|].
    apply list_elem_of_singleton in Hq. by right.
  - assert (Hrun0 :
      retrySetMemoryReserve (Pod := pod) [PodQOSBurstable; PodQOSBestEffort]
        targets 50 busy
      = Some (<[PodQOSBurstable :=
                  {| Name := "/kubepods/Burstable";
                     ResourceParameters :=
                       {| Memory := Some 200; CpuShares := Some 512 |} |}]>
                targets, busy,
              [EvGetResourceStats "/kubepods/Burstable"
                 (inl {| MemoryStats_ := {| Usage := 200 |} |});
               EvGetResourceStats "/kubepods/BestEffort"
                 (inl {| MemoryStats_ := {| Usage := 200 |} |})]))
      by reflexivity.
    pose proof Hrun as Hrun'. rewrite Hrun0 in Hrun'.
    injection Hrun' as <- <- <-.
    eexists _, _, _. split; [exact Hrun0|].
    destruct (Hspec 0%nat PodQOSBurstable _ 100 _ _
                eq_refl eq_refl eq_refl eq_refl) as (_ & _ & Hgt).
    destruct (Hspec 1%nat PodQOSBestEffort _ 300 _ _
                eq_refl eq_refl eq_refl eq_refl) as (_ & Hle & _).
    split.
    + by destruct (Hgt eq_refl) as [_ ->].
    + unfold tierMemory. rewrite Hle; [done|]. vm_compute. discriminate.
Defined.

(** *** Scenario: the stats of BestEffort cannot be read *)

(** A run of C10's theorem: Burstable, read first, is adjusted to 400;
    the read of BestEffort fails, BestEffort keeps its 300 and is
    written with it; the second round returns nil. *)
Lemma stats_failure_keeps_targets_witness :
  exists d' evs,
    secondRound oneGuaranteed
      [PodQOSBurstable; PodQOSBestEffort]
      [PodQOSBurstable; PodQOSBestEffort] targets blind
    = Some (None, d', evs) /\
    evs !! 1%nat
    = Some (EvGetResourceStats "/kubepods/BestEffort" (inr "no stats")) /\
    evs !! 3%nat
    = Some (EvUpdate {| Name := "/kubepods/BestEffort";
                        ResourceParameters :=
                          {| Memory := Some 300; CpuShares := Some 2 |} |}
                     None).
Proof.
  destruct (stats_failure_keeps_targets (Pod := pod) oneGuaranteed
              [PodQOSBurstable; PodQOSBestEffort]
              [PodQOSBurstable; PodQOSBestEffort] targets 50 blind)
    as (configs' & dR & res & d' & evsR & evsU & HR & H2 & _).
  - reflexivity.
  - apply (range_order_two targets targets_keys).
  - apply (range_order_two targets targets_keys).
  - assert (H0 :
      secondRound oneGuaranteed
        [PodQOSBurstable; PodQOSBestEffort]
        [PodQOSBurstable; PodQOSBestEffort] targets blind
      = Some (None, blind,
              [EvGetResourceStats "/kubepods/Burstable"
                 (inl {| MemoryStats_ := {| Usage := 400 |} |});
               EvGetResourceStats "/kubepods/BestEffort" (inr "no stats");
               EvUpdate {| Name := "/kubepods/Burstable";
                           ResourceParameters :=
                             {| Memory := Some 400;
                                CpuShares := Some 512 |} |} None;
               EvUpdate {| Name := "/kubepods/BestEffort";
                           ResourceParameters :=
                             {| Memory := Some 300;
                                CpuShares := Some 2 |} |} None]))
      by reflexivity.
    rewrite H0 in H2. injection H2 as <- <- Hevs.
    exists blind. eexists. split; [exact H0|]. split; reflexivity.
Defined.

(** *** Scenario: bootstrap on a node where only the root exists *)


Example Start_without_root :
  Start minShares join fresh (fun w => (memoryOnly (10 * GiB), w))
    (fun w => ([], w))
    {| cgroups := []; updateFailures := 0; usage := 0; statsFailing := [] |}
  = Some ((Some "root container /kubepods doesn't exist", fresh),
          {| cgroups := []; updateFailures := 0; usage := 0;
             statsFailing := [] |},
          [EvExists "/kubepods" false]).
Proof. reflexivity. Qed.

(** *** Scenario: the first write is rejected while usage is above the
    targets *)


Example UpdateCgroups_retargets_to_usage :
  UpdateCgroups podQOS podResources minShares milliCPUToShares oneGuaranteed
    [PodQOSBurstable; PodQOSBestEffort]
    [PodQOSBurstable; PodQOSBestEffort]
    [PodQOSBurstable; PodQOSBestEffort] overcommitted
  = Some (None, busy11,
          [EvActivePods [guaranteed1GiB]; EvActivePods [guaranteed1GiB];
           EvNodeAllocatable (memoryOnly (10 * GiB));
           EvUpdate (tier "/kubepods/Burstable" 10200547328 2)
                    (Some "write rejected");
           EvUpdate (tier "/kubepods/BestEffort" 10200547328 2) None;
           EvGetResourceStats "/kubepods/Burstable"
             (inl {| MemoryStats_ := {| Usage := 11811160064 |} |});
           EvGetResourceStats "/kubepods/BestEffort"
             (inl {| MemoryStats_ := {| Usage := 11811160064 |} |});
           EvUpdate (tier "/kubepods/Burstable" 11811160064 2) None;
           EvUpdate (tier "/kubepods/BestEffort" 11811160064 2) None]).
Proof. reflexivity. Qed.

(** *** Runs of the further properties *)

Lemma cpu_shares_only_burstable_witness :
  exists r,
    setCPUCgroupConfig podQOS podResources minShares milliCPUToShares twoPods
      (newConfigs twoPods) quiet
    = option_map
        (fun r => (r, quiet, [EvActivePods [burstable500m; guaranteed1GiB]]))
        r /\
    setCPUCgroupConfig podQOS podResources minShares milliCPUToShares
      mixedPods (newConfigs twoPods) quiet
    = option_map
        (fun r => (r, quiet, [EvActivePods [opaqueBestEffort; burstable500m]]))
        r.
Proof.
  apply (cpu_shares_only_burstable podQOS podResources minShares
           milliCPUToShares twoPods mixedPods (newConfigs twoPods)
           (fun w => ([burstable500m; guaranteed1GiB], w))
           (fun w => ([opaqueBestEffort; burstable500m], w)));
    reflexivity.
Defined.

Lemma memory_reserve_undeterminable_witness :
  setMemoryReserve podQOS podResources withUndeterminable targets 50 quiet
  = Some (targets, quiet, [EvActivePods [guaranteed1GiB; undeterminable]]).
Proof.
  apply (memory_reserve_undeterminable podQOS podResources withUndeterminable
           targets 50 (fun w => ([guaranteed1GiB; undeterminable], w))).
  - reflexivity.
  - reflexivity.
  - exists undeterminable. split; [right; left|].
    split; [discriminate|]. intros (req & lim & Hreq). discriminate Hreq.
Defined.

Lemma retry_only_raises_witness :
  raised (tier "/kubepods/Burstable" 100 512)
         (tier "/kubepods/Burstable" 200 512).
Proof.
  exact (retry_only_raises (Pod := pod) [PodQOSBurstable; PodQOSBestEffort]
           50 targets
           (<[PodQOSBurstable := tier "/kubepods/Burstable" 200 512]> targets)
           busy busy
           [EvGetResourceStats "/kubepods/Burstable"
              (inl {| MemoryStats_ := {| Usage := 200 |} |});
            EvGetResourceStats "/kubepods/BestEffort"
              (inl {| MemoryStats_ := {| Usage := 200 |} |})]
           eq_refl PodQOSBurstable).
Defined.



Lemma disabled_is_inert_witness :
  interface_Start (Pod := pod) minShares join
    (NewQOSContainerManager "/kubepods" disabledConfig).1
    (fun w => (∅, w)) (fun w => ([], w)) bare
  = Some ((None, ManagerNoop {| noop_cgroupRoot := "/" |}), bare, []).
Proof.
  destruct (disabled_is_inert (Pod := pod) podQOS podResources minShares
              milliCPUToShares join "/kubepods" disabledConfig
              (fun w => (∅, w)) (fun w => ([], w))
              [PodQOSBurstable; PodQOSBestEffort]
              [PodQOSBurstable; PodQOSBestEffort]
              [PodQOSBurstable; PodQOSBestEffort] bare eq_refl)
    as (_ & HStart & _).
  exact HStart.
Defined.

Lemma first_round_writes_witness :
  exists res d' writes rest,
    UpdateCgroups podQOS podResources minShares milliCPUToShares oneGuaranteed
      [PodQOSBestEffort; PodQOSBurstable]
      [PodQOSBurstable; PodQOSBestEffort]
      [PodQOSBurstable; PodQOSBestEffort] busy
    = Some (res, d',
            EvActivePods [guaranteed1GiB] :: EvActivePods [guaranteed1GiB]
            :: EvNodeAllocatable (memoryOnly (10 * GiB)) :: writes ++ rest) /\
    length writes = 2%nat /\
    exists r, writes !! 0%nat
              = Some (EvUpdate (tier "/kubepods/BestEffort" 10200547328 2) r).
Proof.
  destruct (first_round_writes podQOS podResources minShares milliCPUToShares
              oneGuaranteed [PodQOSBestEffort; PodQOSBurstable]
              [PodQOSBurstable; PodQOSBestEffort]
              [PodQOSBurstable; PodQOSBestEffort]
              (fun w => ([guaranteed1GiB], w))
              (fun w => (memoryOnly (10 * GiB), w))
              busy [guaranteed1GiB] busy [guaranteed1GiB] busy
              (memoryOnly (10 * GiB)) busy
              {| Value := 10 * GiB; MilliValue := 10 * GiB * 1000 |} 50)
    as (res & d' & writes & rest & Hrun & Hlen & Hwrites & _).
  - reflexivity.
  - reflexivity.
  - reflexivity.
  - reflexivity.
  - reflexivity.
  - intros pod Hin Hq. apply list_elem_of_singleton in Hin. subst pod.
    discriminate Hq.
  - intros pod Hin _. apply list_elem_of_singleton in Hin. subst pod.
    eexists _, _. reflexivity.
  - reflexivity.
  - reflexivity.
  - vm_compute. discriminate.
  - apply range_order_newConfigs.
  - apply range_order_newConfigs.
  - exists res, d', writes, rest. split; [exact Hrun|]. split; [exact Hlen|].
    destruct (Hwrites 0%nat PodQOSBestEffort eq_refl) as (c & r & Hc & Hw).
    exists r. rewrite Hw. injection Hc as <-. reflexivity.
Defined.

Lemma unreserved_run :
  UpdateCgroups podQOS podResources minShares milliCPUToShares unreserved
    [PodQOSBurstable; PodQOSBestEffort] [PodQOSBurstable; PodQOSBestEffort]
    [PodQOSBurstable; PodQOSBestEffort] overcommitted
  = Some (None, busy11,
          [EvActivePods [burstable500m; guaranteed1GiB];
           EvUpdate {| Name := "/kubepods/Burstable";
                       ResourceParameters :=
                         {| Memory := None; CpuShares := Some 512 |} |}
                    (Some "write rejected");
           EvUpdate {| Name := "/kubepods/BestEffort";
                       ResourceParameters :=
                         {| Memory := None; CpuShares := Some 2 |} |} None;
           EvUpdate {| Name := "/kubepods/Burstable";
                       ResourceParameters :=
                         {| Memory := None; CpuShares := Some 512 |} |} None;
           EvUpdate {| Name := "/kubepods/BestEffort";
                       ResourceParameters :=
                         {| Memory := None; CpuShares := Some 2 |} |} None]).
Proof. reflexivity. Qed.

Lemma pass_without_memory_reserve_witness :
  exists evs,
    UpdateCgroups podQOS podResources minShares milliCPUToShares unreserved
      [PodQOSBurstable; PodQOSBestEffort] [PodQOSBurstable; PodQOSBestEffort]
      [PodQOSBurstable; PodQOSBestEffort] overcommitted
    = Some (None, busy11, evs) /\
    activePodsReads evs = 1%nat /\ Forall cpu_only_event evs.
Proof.
  eexists. split; [exact unreserved_run|].
  exact (pass_without_memory_reserve podQOS podResources minShares
           milliCPUToShares unreserved _ _ _ _ _ _ _ eq_refl unreserved_run).
Defined.

Lemma pass_nil_iff_last_write_ok_witness :
  exists c evs,
    UpdateCgroups podQOS podResources minShares milliCPUToShares oneGuaranteed
      [PodQOSBurstable; PodQOSBestEffort] [PodQOSBurstable; PodQOSBestEffort]
      [PodQOSBurstable; PodQOSBestEffort] overcommitted
    = Some (None, busy11, evs) /\
    last evs = Some (EvUpdate c None).
Proof.
  destruct (pass_nil_iff_last_write_ok podQOS podResources minShares
              milliCPUToShares oneGuaranteed _ _ _ _ _ _ _
              (proj1 (range_order_newConfigs _))
              (proj1 (range_order_newConfigs _))
              UpdateCgroups_retargets_to_usage) as [[Hnil _] _].
  destruct (Hnil eq_refl) as [c Hc].
  exists c. eexists. split; [exact UpdateCgroups_retargets_to_usage|exact Hc].
Defined.

Lemma pass_shape_witness :
  exists reads writes stats rewrites,
    [EvActivePods [burstable500m; guaranteed1GiB];
     EvUpdate {| Name := "/kubepods/Burstable";
                 ResourceParameters :=
                   {| Memory := None; CpuShares := Some 512 |} |}
              (Some "write rejected");
     EvUpdate {| Name := "/kubepods/BestEffort";
                 ResourceParameters :=
                   {| Memory := None; CpuShares := Some 2 |} |} None;
     EvUpdate {| Name := "/kubepods/Burstable";
                 ResourceParameters :=
                   {| Memory := None; CpuShares := Some 512 |} |} None;
     EvUpdate {| Name := "/kubepods/BestEffort";
                 ResourceParameters :=
                   {| Memory := None; CpuShares := Some 2 |} |} None]
    = reads ++ writes ++ stats ++ rewrites /\
    Forall is_accessor_read reads /\ length writes = 2%nat /\
    Forall is_stats_read stats /\ Forall is_update rewrites.
Proof.
  destruct (pass_shape podQOS podResources minShares milliCPUToShares
              unreserved _ _ _ _ _ _ _
              (proj1 (range_order_newConfigs _)) unreserved_run)
    as [(pods & e & Hevs & _)
       |(reads & writes & stats & rewrites & Hevs & Hr & _ & Hlen & Hs & _
         & Hw & _)].
  - discriminate Hevs.
  - exists reads, writes, stats, rewrites.
    split; [exact Hevs|]. split; [exact Hr|]. split; [exact Hlen|].
    split; [exact Hs|exact Hw].
Defined.

Lemma memoryLimit_antitone_witness :
  memoryLimit (10 * GiB) (2 * GiB) 50 <= memoryLimit (10 * GiB) GiB 50.
Proof.
  apply memoryLimit_antitone;
    first [ split; vm_compute; discriminate | vm_compute; discriminate ].
Defined.



End cm.

(** ** Package admission: the plugin initializer *)

Module admission.

Section Initializer.

(** The three dependencies: [internalclientset.Interface],
    [informers.SharedInformerFactory] and [authorizer.Authorizer]. *)
Variables ClientSet InformerFactory Authorizer : Type.

(** A plugin is a value of some dynamic type: its state [P] and the
    methods that type has.  An absent method is [None]. *)
Context {P : Type}.

Record methods : Type := mkMethods {
  SetInternalClientSet : option (ClientSet -> P -> P);
  SetInformerFactory : option (InformerFactory -> P -> P);
  SetAuthorizer : option (Authorizer -> P -> P);
  Validate : option (P -> option string)
}.

(** The type assertions [plugin.(WantsInternalClientSet)] and its two
    siblings: each interface asks for its setter and, through the
    embedded [admission.Validator], for [Validate]. *)
Definition asWantsInternalClientSet (ms : methods)
  : option (ClientSet -> P -> P) :=
  match SetInternalClientSet ms, Validate ms with
  | Some set, Some _ => Some set
  | _, _ => None
  end.

Definition asWantsInformerFactory (ms : methods)
  : option (InformerFactory -> P -> P) :=
  match SetInformerFactory ms, Validate ms with
  | Some set, Some _ => Some set
  | _, _ => None
  end.

Definition asWantsAuthorizer (ms : methods)
  : option (Authorizer -> P -> P) :=
  match SetAuthorizer ms, Validate ms with
  | Some set, Some _ => Some set
  | _, _ => None
  end.

Record pluginInitializer : Type := mkPluginInitializer {
  internalClient : ClientSet;
  informers : InformerFactory;
  authorizer : Authorizer
}.

Definition NewPluginInitializer (internalClient' : ClientSet)
  (sharedInformers : InformerFactory) (authz : Authorizer)
  : pluginInitializer :=
  {| internalClient := internalClient';
     informers := sharedInformers;
     authorizer := authz |}.

(** The setter calls made on a plugin, oldest first. *)
Inductive invocation : Type :=
  | InvSetInternalClientSet (c : ClientSet)
  | InvSetInformerFactory (f : InformerFactory)
  | InvSetAuthorizer (a : Authorizer).

(** [Initialize] returns the plugin's state after the call and the
    setters invoked on it. *)
Definition Initialize (i : pluginInitializer) (ms : methods) (plugin : P)
  : P * list invocation :=
  let '(plugin, invs1) :=
    match asWantsInternalClientSet ms with
    | Some set =>
        (set (internalClient i) plugin,
         [InvSetInternalClientSet (internalClient i)])
    | None => (plugin, [])
    end in
  let '(plugin, invs2) :=
    match asWantsInformerFactory ms with
    | Some set =>
        (set (informers i) plugin, [InvSetInformerFactory (informers i)])
    | None => (plugin, [])
    end in
  let '(plugin, invs3) :=
    match asWantsAuthorizer ms with
    | Some set =>
        (set (authorizer i) plugin, [InvSetAuthorizer (authorizer i)])
    | None => (plugin, [])
    end in
  (plugin, invs1 ++ invs2 ++ invs3).





(** The effect of one invocation on the plugin's state. *)
Definition invoke (ms : methods) (plugin : P) (inv : invocation) : P :=
  match inv with
  | InvSetInternalClientSet c =>
      match SetInternalClientSet ms with
      | Some set => set c plugin
      | None => plugin
      end
  | InvSetInformerFactory f =>
      match SetInformerFactory ms with
      | Some set => set f plugin
      | None => plugin
      end
  | InvSetAuthorizer a =>
      match SetAuthorizer ms with
      | Some set => set a plugin
      | None => plugin
      end
  end.

(** An interface is satisfied exactly when the plugin has its setter
    and [Validate]. *)
Lemma asWantsInternalClientSet_Some ms :
  is_Some (asWantsInternalClientSet ms)
  <-> is_Some (SetInternalClientSet ms) /\ is_Some (Validate ms).
Proof.
  unfold asWantsInternalClientSet.
  destruct (SetInternalClientSet ms), (Validate ms); split;
    try (intros [x Hx]; discriminate Hx);
    try (intros [[x Hx] [y Hy]]; discriminate); eauto.
Qed.

Lemma asWantsInformerFactory_Some ms :
  is_Some (asWantsInformerFactory ms)
  <-> is_Some (SetInformerFactory ms) /\ is_Some (Validate ms).
Proof.
  unfold asWantsInformerFactory.
  destruct (SetInformerFactory ms), (Validate ms); split;
    try (intros [x Hx]; discriminate Hx);
    try (intros [[x Hx] [y Hy]]; discriminate); eauto.
Qed.

Lemma asWantsAuthorizer_Some ms :
  is_Some (asWantsAuthorizer ms)
  <-> is_Some (SetAuthorizer ms) /\ is_Some (Validate ms).
Proof.
  unfold asWantsAuthorizer.
  destruct (SetAuthorizer ms), (Validate ms); split;
    try (intros [x Hx]; discriminate Hx);
    try (intros [[x Hx] [y Hy]]; discriminate); eauto.
Qed.



(** *** Further properties *)

(** X12: a plugin whose type has no [Validate] method satisfies none of
    the three interfaces, whatever setters it has: [Initialize] invokes
    nothing on it and leaves it as it was. *)
Theorem Initialize_needs_Validate (i : pluginInitializer) (ms : methods)
  (plugin : P) :
  Validate ms = None -> Initialize i ms plugin = (plugin, []).
Proof.
  intros Hv. unfold Initialize, asWantsInternalClientSet,
    asWantsInformerFactory, asWantsAuthorizer. rewrite Hv.
  by destruct (SetInternalClientSet ms), (SetInformerFactory ms),
       (SetAuthorizer ms).
Qed.

(** X13: the setters are invoked in a fixed order, the client set before
    the informer factory before the authorizer, each on the state the
    previous one left: the plugin's final state is the result of the
    invocations made, in the order they were made. *)
Theorem Initialize_in_order (i : pluginInitializer) (ms : methods)
  (plugin : P) :
  let r := Initialize i ms plugin in
  r.2 `sublist_of` [InvSetInternalClientSet (internalClient i);
                    InvSetInformerFactory (informers i);
                    InvSetAuthorizer (authorizer i)] /\
  r.1 = foldl (invoke ms) plugin r.2.
Proof.
  unfold Initialize, asWantsInternalClientSet, asWantsInformerFactory,
    asWantsAuthorizer.
  destruct (SetInternalClientSet ms) as [set1|] eqn:H1,
           (SetInformerFactory ms) as [set2|] eqn:H2,
           (SetAuthorizer ms) as [set3|] eqn:H3,
           (Validate ms) as [v|];
    cbn [fst snd app foldl invoke]; rewrite ?H1, ?H2, ?H3;
    (split; [|done]);
    repeat first [ apply sublist_nil
                 | apply sublist_skip
                 | apply sublist_cons ].
Qed.

End Initializer.

(** *** Scenario: a plugin that only wants the authorizer

    Dependencies are named by strings; the plugin's state is the list
    of what it has been given. *)

Definition authorizerOnly : @methods string string string (list string) :=
  {| SetInternalClientSet := None;
     SetInformerFactory := None;
     SetAuthorizer := Some (fun authz given => given ++ [authz]);
     Validate := Some (fun given =>
                         match given with
                         | [] => Some "missing authorizer"
                         | _ => None
                         end) |}.

(** No [Validate]: the type satisfies none of the interfaces. *)
Definition notValidator : @methods string string string (list string) :=
  {| SetInternalClientSet := Some (fun client given => given ++ [client]);
     SetInformerFactory := None;
     SetAuthorizer := Some (fun authz given => given ++ [authz]);
     Validate := None |}.


Example Initialize_authorizerOnly :
  Initialize string string string
    (NewPluginInitializer string string string "client" "informers" "authz")
    authorizerOnly []
  = (["authz"], [InvSetAuthorizer string string string "authz"]).
Proof. reflexivity. Qed.


Lemma Initialize_needs_Validate_witness :
  Initialize string string string
    (NewPluginInitializer string string string "client" "informers" "authz")
    notValidator ["given"]
  = (["given"], []).
Proof.
  apply (Initialize_needs_Validate string string string). reflexivity.
Defined.

End admission.
